(** * go-fcm-scraping: the scraper of [main.go], embedded and verified

    The development follows the source top-down: Go strings are byte
    sequences ([list ascii]), [int] and [time.Duration] are 64-bit integers
    carried in [Z], the three regular expressions of [NewScraper] are run by
    a small backtracking matcher for the fragment of RE2 syntax they use,
    and [strconv.Atoi], [strings.TrimSpace] and [strings.Contains] are
    transcribed from the Go standard library.  Code that can panic returns a
    [result]; the goroutines of [Run] are a step relation. *)

From Stdlib Require Import ZArith List Ascii String Bool Lia.
From stdpp Require Import base list relations.

#[local] Open Scope Z_scope.

(** ** Strings *)

Abbreviation gostring := (list ascii).

(** A literal of the source text. *)
Definition go (s : String.string) : gostring := list_ascii_of_string s.

Definition chr (n : N) : ascii := ascii_of_N n.
Definition code (c : ascii) : Z := Z.of_N (N_of_ascii c).

(** s[i:i+n] *)
Definition slice (s : gostring) (i n : nat) : gostring := take n (drop i s).

(** ** Results of code that can panic *)

Inductive result (A : Type) : Type :=
| Ok (a : A)
| Panic.
Arguments Ok {A} a.
Arguments Panic {A}.

#[global] Instance result_ret : MRet result := fun _ a => Ok a.
#[global] Instance result_bind : MBind result := fun _ _ k r =>
  match r with
  | Ok a => k a
  | Panic => Panic
  end.

(** [l[i]] with Go's bounds check. *)
Definition index {A : Type} (l : list A) (i : nat) : result A :=
  match l !! i with
  | Some a => Ok a
  | None => Panic
  end.

(** ** Package strings *)

Module strings.

(** [strings.HasPrefix] *)
Fixpoint HasPrefix (s prefix : gostring) : bool :=
  match prefix, s with
  | [], _ => true
  | p :: prefix', c :: s' => Ascii.eqb c p && HasPrefix s' prefix'
  | _ :: _, [] => false
  end.

(** [strings.Contains]: [substr] occurs somewhere in [s]. *)
Fixpoint Contains (s substr : gostring) : bool :=
  HasPrefix s substr ||
  match s with
  | [] => false
  | _ :: s' => Contains s' substr
  end.

(** [unicode.IsSpace] holds for U+0009 to U+000D, U+0020, U+0085, U+00A0,
    U+1680, U+2000 to U+200A, U+2028, U+2029, U+202F, U+205F and U+3000.
    The three functions below recognise their UTF-8 encodings.  A byte
    sequence that is not well-formed decodes to U+FFFD, which is no space,
    and no encoding below is a prefix or a suffix of another, so trimming
    runes is trimming these byte sequences. *)
Definition asciiSpace (a : ascii) : bool :=
  let n := code a in ((9 <=? n) && (n <=? 13)) || (n =? 32).

Definition space2 (a b : ascii) : bool :=
  (code a =? 194) && ((code b =? 133) || (code b =? 160)).

Definition space3 (a b c : ascii) : bool :=
  let x := code a in let y := code b in let z := code c in
  ((x =? 225) && (y =? 154) && (z =? 128))
  || ((x =? 226) && (y =? 128)
      && (((128 <=? z) && (z <=? 138)) || (z =? 168) || (z =? 169) || (z =? 175)))
  || ((x =? 226) && (y =? 129) && (z =? 159))
  || ((x =? 227) && (y =? 128) && (z =? 128)).

(** Drop the spaces at the head, [sp2] and [sp3] telling the two-byte and
    three-byte ones. *)
Fixpoint trimLead (sp2 : ascii -> ascii -> bool) (sp3 : ascii -> ascii -> ascii -> bool)
    (s : gostring) : gostring :=
  match s with
  | [] => []
  | a :: t1 =>
    if asciiSpace a then trimLead sp2 sp3 t1 else
    match t1 with
    | [] => s
    | b :: t2 =>
      if sp2 a b then trimLead sp2 sp3 t2 else
      match t2 with
      | [] => s
      | c :: t3 => if sp3 a b c then trimLead sp2 sp3 t3 else s
      end
    end
  end.

(** [strings.TrimLeftFunc(s, unicode.IsSpace)] *)
Definition TrimLeft (s : gostring) : gostring := trimLead space2 space3 s.

(** [strings.TrimRightFunc(s, unicode.IsSpace)]: the same walk from the end. *)
Definition TrimRight (s : gostring) : gostring :=
  rev (trimLead (fun b a => space2 a b) (fun c b a => space3 a b c) (rev s)).

(** [strings.TrimSpace] *)
Definition TrimSpace (s : gostring) : gostring := TrimRight (TrimLeft s).

End strings.

(** ** Package regexp, for the patterns of [NewScraper]

    The patterns are built from literal bytes, the lazy [.*?] and one
    capturing group.  [.] matches any character but a newline.  Go decodes
    UTF-8 and matches runes; the bytes [<], [>], [/], the letters and the
    newline are all below 0x80 and never occur inside a multi-byte
    sequence (an ill-formed byte is one rune of width one), so the match
    boundaries are the same when the matcher walks the bytes. *)

Module regexp.

Inductive inst : Type :=
| Char (c : ascii)     (* a literal *)
| AnyStarLazy          (* .*? *)
| Save.                (* a group boundary, opening or closing *)

Abbreviation Regexp := (list inst).

Definition newline : ascii := chr 10.

Definition meta (c : ascii) : bool :=
  existsb (Ascii.eqb c) (go "\.+*?()|[]{}^$").

(** The parser of the fragment; [inGroup] tells whether a group is open. *)
Fixpoint parse (inGroup : bool) (pat : gostring) : option Regexp :=
  match pat with
  | [] => if inGroup then None else Some []
  | c :: rest =>
    if Ascii.eqb c "."%char then
      match rest with
      | a :: b :: rest' =>
        if Ascii.eqb a "*"%char && Ascii.eqb b "?"%char
        then option_map (cons AnyStarLazy) (parse inGroup rest')
        else None
      | _ => None
      end
    else if Ascii.eqb c "("%char then
      if inGroup then None else option_map (cons Save) (parse true rest)
    else if Ascii.eqb c ")"%char then
      if inGroup then option_map (cons Save) (parse false rest) else None
    else if meta c then None
    else option_map (cons (Char c)) (parse inGroup rest)
  end.

(** [regexp.Compile].  Only patterns that start with a literal are accepted:
    their matches are never empty, so the special treatment Go gives to
    empty matches in [FindAll] and [ReplaceAll] never applies. *)
Definition Compile (pat : gostring) : option Regexp :=
  match parse false pat with
  | Some (Char c :: re) => Some (Char c :: re)
  | _ => None
  end.

(** [regexp.MustCompile] panics when [Compile] fails. *)
Definition MustCompile (pat : gostring) : Regexp :=
  match Compile pat with
  | Some re => re
  | None => []
  end.

(** [re.NumSubexp] *)
Fixpoint saves (re : Regexp) : nat :=
  match re with
  | [] => O
  | Save :: re' => S (saves re')
  | _ :: re' => saves re'
  end.

Definition NumSubexp (re : Regexp) : nat := Nat.div2 (saves re).

Definition shift (r : nat * list nat) : nat * list nat :=
  (S (fst r), map S (snd r)).

(** One match attempt at the head of [s], with the priorities of a
    backtracking matcher (Go's leftmost-first semantics): the lazy star
    first tries the rest of the pattern where it stands and takes one more
    character only when that fails.  The result is the number of bytes
    matched and the offsets of the group boundaries; [star k] is the lazy
    star in front of the rest [k] of the pattern. *)
Fixpoint star (k : gostring -> option (nat * list nat)) (s : gostring)
  : option (nat * list nat) :=
  match k s with
  | Some r => Some r
  | None =>
    match s with
    | x :: s' => if Ascii.eqb x newline then None else option_map shift (star k s')
    | [] => None
    end
  end.

Definition mark (r : nat * list nat) : nat * list nat := (fst r, O :: snd r).

Fixpoint run (re : Regexp) (s : gostring) {struct re} : option (nat * list nat) :=
  match re with
  | [] => Some (O, [])
  | Char c :: re' =>
    match s with
    | x :: s' => if Ascii.eqb x c then option_map shift (run re' s') else None
    | [] => None
    end
  | Save :: re' => option_map mark (run re' s)
  | AnyStarLazy :: re' => star (run re') s
  end.

(** The successive non-overlapping matches of [re] in [s], leftmost first:
    [off] is the offset of the head of [s] in the whole input and [skip]
    counts the bytes of the current match still to step over. *)
Fixpoint scan (re : Regexp) (off skip : nat) (s : gostring) : list (nat * (nat * list nat)) :=
  match s with
  | [] => []
  | _ :: s' =>
    match skip with
    | S k => scan re (S off) k s'
    | O =>
      match run re s with
      | Some r => (off, r) :: scan re (S off) (Nat.pred (fst r)) s'
      | None => scan re (S off) O s'
      end
    end
  end.

(** The text of the groups from their boundaries, pair by pair. *)
Fixpoint groups (s : gostring) (off : nat) (caps : list nat) : list gostring :=
  match caps with
  | a :: b :: caps' => slice s (off + a) (b - a) :: groups s off caps'
  | _ => []
  end.

Definition submatch (s : gostring) (m : nat * (nat * list nat)) : list gostring :=
  slice s (fst m) (fst (snd m)) :: groups s (fst m) (snd (snd m)).

(** [re.FindAllStringIndex(s, -1)]: where each match starts and ends. *)
Definition FindAllStringIndex (re : Regexp) (s : gostring) : list (nat * nat) :=
  map (fun m => (fst m, (fst m + fst (snd m))%nat)) (scan re 0 0 s).

(** [re.FindAllString(s, -1)] *)
Definition FindAllString (re : Regexp) (s : gostring) : list gostring :=
  map (fun m => slice s (fst m) (fst (snd m))) (scan re 0 0 s).

(** [re.FindAllStringSubmatch(s, -1)]: per match, the whole match and then
    the text of each group. *)
Definition FindAllStringSubmatch (re : Regexp) (s : gostring) : list (list gostring) :=
  map (submatch s) (scan re 0 0 s).

(** [re.ReplaceAllString(src, repl)] for a [repl] without [$]: the text
    between the matches, with [repl] in place of each match. *)
Fixpoint replace (re : Regexp) (repl : gostring) (skip : nat) (s : gostring) : gostring :=
  match s with
  | [] => []
  | x :: s' =>
    match skip with
    | S k => replace re repl k s'
    | O =>
      match run re s with
      | Some r => repl ++ replace re repl (Nat.pred (fst r)) s'
      | None => x :: replace re repl O s'
      end
    end
  end.

Definition ReplaceAllString (re : Regexp) (src repl : gostring) : gostring :=
  replace re repl 0 src.

End regexp.

(** ** Package strconv, on a 64-bit platform *)

Module strconv.

(** The [Err] field of a [*NumError]. *)
Inductive NumError : Type := ErrSyntax | ErrRange.

Definition maxUint64 : Z := 2 ^ 64 - 1.
Definition wrap64 (n : Z) : Z := n mod 2 ^ 64.

Definition isDigit (c : ascii) : bool := (48 <=? code c) && (code c <=? 57).

(** The loop of [ParseUint(s, 10, 64)]: [n] is the value so far.  Any byte
    that is not a decimal digit is a syntax error (a letter is a digit of
    value ten or more, refused in base 10; an underscore is accepted in base
    0 only).  The range error is raised as soon as the digits read so far
    overflow, before the rest of the string is looked at. *)
Fixpoint parseUintLoop (s : gostring) (n : Z) : Z * option NumError :=
  match s with
  | [] => (n, None)
  | c :: s' =>
    if isDigit c then
      let d := code c - 48 in
      let cutoff := maxUint64 / 10 + 1 in
      if cutoff <=? n then (maxUint64, Some ErrRange)
      else
        let n := wrap64 (n * 10) in
        let n1 := wrap64 (n + d) in
        if (n1 <? n) || (maxUint64 <? n1) then (maxUint64, Some ErrRange)
        else parseUintLoop s' n1
    else (0, Some ErrSyntax)
  end.

Definition ParseUint (s : gostring) : Z * option NumError :=
  match s with
  | [] => (0, Some ErrSyntax)
  | _ => parseUintLoop s 0
  end.

(** [ParseInt(s, 10, 0)] *)
Definition ParseInt (s : gostring) : Z * option NumError :=
  match s with
  | [] => (0, Some ErrSyntax)
  | c :: s' =>
    let neg := Ascii.eqb c "-"%char in
    let s1 := if Ascii.eqb c "+"%char || neg then s' else s in
    match ParseUint s1 with
    | (_, Some ErrSyntax) => (0, Some ErrSyntax)
    | (un, _) =>
      let cutoff := 2 ^ 63 in
      if negb neg && (cutoff <=? un) then (cutoff - 1, Some ErrRange)
      else if neg && (cutoff <? un) then (- cutoff, Some ErrRange)
      else (if neg then - un else un, None)
    end
  end.

(** The fast path of [Atoi]: the digits after the sign, [ch -= '0'] on a
    byte and [ch > 9] refusing the rest. *)
Fixpoint atoiLoop (s : gostring) (n : Z) : option Z :=
  match s with
  | [] => Some n
  | c :: s' =>
    let ch := (code c - 48) mod 256 in
    if 9 <? ch then None else atoiLoop s' (n * 10 + ch)
  end.

(** [strconv.Atoi]: the value and the error. *)
Definition Atoi (s : gostring) : Z * option NumError :=
  let sLen := length s in
  if (0 <? sLen)%nat && (sLen <? 19)%nat then
    match s with
    | [] => (0, Some ErrSyntax)
    | c :: s' =>
      let signed := Ascii.eqb c "-"%char || Ascii.eqb c "+"%char in
      let s1 := if signed then s' else s in
      if signed && (length s1 <? 1)%nat then (0, Some ErrSyntax)
      else
        match atoiLoop s1 0 with
        | None => (0, Some ErrSyntax)
        | Some n => (if Ascii.eqb c "-"%char then - n else n, None)
        end
    end
  else ParseInt s.

End strconv.

(** ** Data structures *)

Record Team : Type := { Name : gostring; URL : gostring }.

Record Player : Type := {
  Profile : gostring;
  Team_ : gostring;      (* the field Team *)
  Price : gostring;
  Age : Z;
  Overall : Z;
  Potential : Z;
  Growth : Z
}.

(** Go's pseudo-random source is a field of the scraper too; it is mutable
    and is threaded apart (see [fetchHTML]). *)
Record Scraper : Type := {
  clientTimeout : Z;
  minPotential : Z;
  minGrowth : Z;
  outputFile : gostring;
  concurrency : Z;
  minDelay : Z;
  maxDelay : Z;
  rowPattern : regexp.Regexp;
  cellPattern : regexp.Regexp;
  tagStripper : regexp.Regexp
}.

Definition Second : Z := 1000000000.

Definition NewScraper : Scraper := {|
  clientTimeout := 30 * Second;
  minPotential := 70;
  minGrowth := 12;
  outputFile := go "high_potential_players.json";
  concurrency := 3;
  minDelay := 2 * Second;
  maxDelay := 5 * Second;
  rowPattern := regexp.MustCompile (go "<tr.*?>.*?</tr>");
  cellPattern := regexp.MustCompile (go "<td.*?>(.*?)</td>");
  tagStripper := regexp.MustCompile (go "<.*?>")
|}.

(** ** The extractor *)

Definition stripTags (s : Scraper) (input : gostring) : gostring :=
  strings.TrimSpace (regexp.ReplaceAllString s.(tagStripper) input []).

(** cols[i][j] *)
Definition index2 (cols : list (list gostring)) (i j : nat) : result gostring :=
  c ← index cols i; index c j.

(** The body of the loop of [extractPlayers]: [None] is [continue], [Some p]
    is the player appended. *)
Definition extractRow (s : Scraper) (team : Team) (row : gostring) : result (option Player) :=
  let cols := regexp.FindAllStringSubmatch s.(cellPattern) row in
  if (length cols <? 6)%nat then Ok None else
  c0 ← index2 cols 0 1;
  let profile := stripTags s c0 in
  if strings.Contains profile (go "Loan") then Ok None else
  c2 ← index2 cols 2 1;
  let '(potential, err) := strconv.Atoi (stripTags s c2) in
  if bool_decide (err ≠ None) || (potential <? s.(minPotential)) then Ok None else
  c3 ← index2 cols 3 1;
  let '(growth, err) := strconv.Atoi (stripTags s c3) in
  if bool_decide (err ≠ None) || (growth <? s.(minGrowth)) then Ok None else
  c1 ← index2 cols 1 1;
  let overall := fst (strconv.Atoi (stripTags s c1)) in
  c4 ← index2 cols 4 1;
  let age := fst (strconv.Atoi (stripTags s c4)) in
  c5 ← index2 cols 5 1;
  let price := stripTags s c5 in
  Ok (Some {| Profile := profile; Team_ := team.(Name); Price := price;
              Age := age; Overall := overall;
              Potential := potential; Growth := growth |}).

Fixpoint extractLoop (s : Scraper) (team : Team) (rows : list gostring)
    (players : list Player) : result (list Player) :=
  match rows with
  | [] => Ok players
  | row :: rows' =>
    o ← extractRow s team row;
    match o with
    | None => extractLoop s team rows' players
    | Some p => extractLoop s team rows' (players ++ [p])
    end
  end.

Definition extractPlayers (s : Scraper) (team : Team) (html : gostring) : result (list Player) :=
  extractLoop s team (regexp.FindAllString s.(rowPattern) html) [].

(** The text of cell [k] of a row, as the loop reads it: cols[k][1]. *)
Definition cell (s : Scraper) (row : gostring) (k : nat) : result gostring :=
  index2 (regexp.FindAllStringSubmatch s.(cellPattern) row) k 1.

(** The number of cell fragments of a row. *)
Definition cellCount (s : Scraper) (row : gostring) : nat :=
  length (regexp.FindAllStringSubmatch s.(cellPattern) row).

(** A scraper whose patterns are those [NewScraper] compiles; thresholds,
    delays and the rest of the configuration are free. *)
Definition configured (s : Scraper) : Prop :=
  s.(rowPattern) = NewScraper.(rowPattern) /\
  s.(cellPattern) = NewScraper.(cellPattern) /\
  s.(tagStripper) = NewScraper.(tagStripper).

(** What a row adds to the output. *)
Definition accepted (s : Scraper) (team : Team) (row : gostring) : option Player :=
  match extractRow s team row with
  | Ok o => o
  | Panic => None
  end.

(** Two tests used to reason about [stripTags].  [closes t]: the text after
    a [<] reaches a [>] before any newline, so that the tag pattern matches
    there.  [leads sp2 sp3 s]: [s] starts with a space that [trimLead]
    would drop. *)
Fixpoint closes (t : gostring) : bool :=
  match t with
  | [] => false
  | c :: t' =>
    if Ascii.eqb c ">"%char then true
    else if Ascii.eqb c regexp.newline then false
    else closes t'
  end.

Definition leads (sp2 : ascii -> ascii -> bool) (sp3 : ascii -> ascii -> ascii -> bool)
    (s : gostring) : bool :=
  match s with
  | [] => false
  | a :: t1 =>
    strings.asciiSpace a ||
    match t1 with
    | [] => false
    | b :: t2 =>
      sp2 a b || match t2 with [] => false | c :: _ => sp3 a b c end
    end
  end.

(** The tag pattern of [NewScraper], compiled. *)
Definition tagRE : regexp.Regexp :=
  [regexp.Char "<"; regexp.AnyStarLazy; regexp.Char ">"].

(** No tag is left: after each [<] a newline comes before any [>]. *)
Definition tagfree (r : gostring) : Prop :=
  forall pre t, r = pre ++ "<"%char :: t -> closes t = false.

(** The place in the output of the record of row [k], when that row is
    accepted: the number of accepted rows before it. *)
Definition recordIndex (s : Scraper) (team : Team) (rows : list gostring) (k : nat) : nat :=
  length (omap (accepted s team) (take k rows)).

(** An integer as the spec means it: an optional sign, then one or more
    decimal digits. *)
Definition isInteger (s : gostring) : bool :=
  match s with
  | [] => false
  | c :: s' =>
    if Ascii.eqb c "-"%char || Ascii.eqb c "+"%char
    then negb (length s' <? 1)%nat && forallb strconv.isDigit s'
    else forallb strconv.isDigit s
  end.

(** The spec's sentence on the best-effort fields, as it is written: in a
    record, an overall or age cell that is no integer left a zero. *)
Definition malformed_defaults_to_zero (s : Scraper) : Prop :=
  forall team row c1 c4 p,
    cell s row 1 = Ok c1 -> cell s row 4 = Ok c4 ->
    extractRow s team row = Ok (Some p) ->
    (isInteger (stripTags s c1) = false -> p.(Overall) = 0) /\
    (isInteger (stripTags s c4) = false -> p.(Age) = 0).

(** ** Package math/rand

    A [*rand.Rand] is the sequence of values its source is still to give to
    [Int63], each in [0, 2^63).  A generator whose sequence ends inside a
    rejection loop [Starves]: the loop of the Go code would go on drawing. *)

Module rand.

Abbreviation Rand := (list Z).

Inductive outcome (A : Type) : Type :=
| Value (a : A) (r : Rand)
| Panics
| Starves.
Arguments Value {A} a r.
Arguments Panics {A}.
Arguments Starves {A}.

Definition valid (r : Rand) : Prop := Forall (fun v => 0 <= v < 2 ^ 63) r.

(** The loop [for v > max { v = r.Int63() }] and the final [v % n]. *)
Fixpoint reject (max n : Z) (r : Rand) : outcome Z :=
  match r with
  | [] => Starves
  | v :: r' => if max <? v then reject max n r' else Value (v mod n) r'
  end.

Definition Int63n (n : Z) (r : Rand) : outcome Z :=
  if n <=? 0 then Panics
  else if Z.land n (n - 1) =? 0 then
    match r with
    | [] => Starves
    | v :: r' => Value (Z.land v (n - 1)) r'
    end
  else reject (2 ^ 63 - 1 - 2 ^ 63 mod n) n r.

(** [Int31] is [Int63() >> 32]; the loop of [Int31n] draws with it. *)
Fixpoint reject31 (max n : Z) (r : Rand) : outcome Z :=
  match r with
  | [] => Starves
  | v :: r' =>
    if max <? Z.shiftr v 32 then reject31 max n r' else Value (Z.shiftr v 32 mod n) r'
  end.

Definition Int31n (n : Z) (r : Rand) : outcome Z :=
  if Z.land n (n - 1) =? 0 then
    match r with
    | [] => Starves
    | v :: r' => Value (Z.land (Z.shiftr v 32) (n - 1)) r'
    end
  else reject31 (2 ^ 31 - 1 - 2 ^ 31 mod n) n r.

Definition Intn (n : Z) (r : Rand) : outcome Z :=
  if n <=? 0 then Panics
  else if n <=? 2 ^ 31 - 1 then Int31n n r
  else Int63n n r.

End rand.

(** ** The fetcher *)

(** A Go [error]: its message and the error it wraps with [%w], if any. *)
Inductive error : Type :=
| Plain (msg : gostring)
| Wrap (msg : gostring) (cause : error).

Definition Error (e : error) : gostring :=
  match e with Plain msg | Wrap msg _ => msg end.
Definition Unwrap (e : error) : option error :=
  match e with Plain _ => None | Wrap _ cause => Some cause end.

(** [fmt.Errorf(prefix + "%w", err)] and [fmt.Errorf(prefix + "%s", text)] *)
Definition Errorf_w (prefix : gostring) (err : error) : error :=
  Wrap (prefix ++ Error err) err.
Definition Errorf_s (prefix text : gostring) : error :=
  Plain (prefix ++ text).

Module http.

Record Request : Type := {
  Method : gostring;
  ReqURL : gostring;
  Header : list (gostring * gostring)
}.

(** A response: [Body] is what [io.ReadAll(resp.Body)] returns. *)
Record Response : Type := {
  StatusCode : Z;
  Status : gostring;
  Body : gostring + error
}.

Definition StatusOK : Z := 200.

(** The world outside the program, for one call: whether [http.NewRequest]
    accepts the URL, and what [client.Do] answers to a request. *)
Record Transport : Type := {
  NewRequestErr : gostring -> option error;
  Do : Request -> Response + error
}.

End http.

(** The static configuration of the package. *)
Definition mkTeam (name url : String.string) : Team :=
  {| Name := go name; URL := go url |}.

Definition teams : list Team := [
  mkTeam "Bradford City" "https://www.fifacm.com/25/team/1804/bradford-city";
  mkTeam "Doncaster Rovers" "https://www.fifacm.com/25/team/142/doncaster-rovers";
  mkTeam "Carlisle United" "https://www.fifacm.com/25/team/1480/carlisle-united";
  mkTeam "Swindon Town" "https://www.fifacm.com/25/team/1934/swindon-town";
  mkTeam "Chesterfield" "https://www.fifacm.com/25/team/1924/chesterfield";
  mkTeam "Tranmere Rovers" "https://www.fifacm.com/25/team/15048/tranmere-rovers";
  mkTeam "Crewe Alexandra" "https://www.fifacm.com/25/team/121/crewe-alexandra";
  mkTeam "Walsall" "https://www.fifacm.com/25/team/1803/walsall";
  mkTeam "Notts County" "https://www.fifacm.com/25/team/1937/notts-county";
  mkTeam "Port Vale" "https://www.fifacm.com/25/team/1928/port-vale";
  mkTeam "Grimsby Town" "https://www.fifacm.com/25/team/92/grimsby-town";
  mkTeam "Gillingham" "https://www.fifacm.com/25/team/1802/gillingham";
  mkTeam "Cheltenham Town" "https://www.fifacm.com/25/team/1936/cheltenham-town";
  mkTeam "Milton Keynes Dons" "https://www.fifacm.com/25/team/1798/milton-keynes-dons";
  mkTeam "AFC Wimbledon" "https://www.fifacm.com/25/team/112259/afc-wimbledon";
  mkTeam "Salford City" "https://www.fifacm.com/25/team/113926/salford-city";
  mkTeam "Newport County" "https://www.fifacm.com/25/team/112254/newport-county";
  mkTeam "Bromley" "https://www.fifacm.com/25/team/112764/bromley";
  mkTeam "Barrow" "https://www.fifacm.com/25/team/381/barrow";
  mkTeam "Harrogate Town" "https://www.fifacm.com/25/team/112222/harrogate-town";
  mkTeam "Fleetwood Town" "https://www.fifacm.com/25/team/112260/fleetwood-town";
  mkTeam "Morecambe" "https://www.fifacm.com/25/team/357/morecambe";
  mkTeam "Accrington Stanley" "https://www.fifacm.com/25/team/110313/accrington-stanley";
  mkTeam "Colchester United" "https://www.fifacm.com/25/team/1935/colchester-united"
].

Definition userAgents : list gostring := [
  go "Mozilla/5.0 (Windows NT 10.0; Win64; x64) AppleWebKit/537.36 (KHTML, like Gecko) Chrome/91.0.4472.124 Safari/537.36";
  go "Mozilla/5.0 (Macintosh; Intel Mac OS X 10_15_7) AppleWebKit/537.36 (KHTML, like Gecko) Chrome/91.0.4472.124 Safari/537.36";
  go "Mozilla/5.0 (Windows NT 10.0; Win64; x64; rv:89.0) Gecko/20100101 Firefox/89.0"
].

(** int64 arithmetic wraps around. *)
Definition wrapInt64 (n : Z) : Z := (n + 2 ^ 63) mod 2 ^ 64 - 2 ^ 63.
Definition isInt64 (n : Z) : Prop := - 2 ^ 63 <= n < 2 ^ 63.

(** The first statement of [fetchHTML]: the delay slept before the request. *)
Definition pacingDelay (s : Scraper) (r : rand.Rand) : rand.outcome Z :=
  match rand.Int63n (wrapInt64 (s.(maxDelay) - s.(minDelay))) r with
  | rand.Value v r' => rand.Value (wrapInt64 (s.(minDelay) + v)) r'
  | rand.Panics => rand.Panics
  | rand.Starves => rand.Starves
  end.

Definition request (url userAgent : gostring) : http.Request :=
  {| http.Method := go "GET";
     http.ReqURL := url;
     http.Header := [
       (go "User-Agent", userAgent);
       (go "Accept", go "text/html,application/xhtml+xml,application/xml;q=0.9,image/webp,*/*;q=0.8");
       (go "Accept-Language", go "en-US,en;q=0.5") ] |}.

(** What a call of [fetchHTML] did: the time slept, and the two values
    returned. *)
Record fetched : Type := {
  slept : Z;
  text : gostring;
  err : option error
}.

Definition fetchHTML (s : Scraper) (net : http.Transport) (url : gostring) (r : rand.Rand)
  : rand.outcome fetched :=
  match pacingDelay s r with
  | rand.Panics => rand.Panics
  | rand.Starves => rand.Starves
  | rand.Value delay r =>
    match net.(http.NewRequestErr) url with
    | Some e =>
      rand.Value {| slept := delay; text := [];
                    err := Some (Errorf_w (go "failed to create request: ") e) |} r
    | None =>
      match rand.Intn (Z.of_nat (length userAgents)) r with
      | rand.Panics => rand.Panics
      | rand.Starves => rand.Starves
      | rand.Value i r =>
        match userAgents !! Z.to_nat i with
        | None => rand.Panics
        | Some userAgent =>
          match net.(http.Do) (request url userAgent) with
          | inr e =>
            rand.Value {| slept := delay; text := [];
                          err := Some (Errorf_w (go "HTTP request failed: ") e) |} r
          | inl resp =>
            if negb (resp.(http.StatusCode) =? http.StatusOK) then
              rand.Value {| slept := delay; text := [];
                            err := Some (Errorf_s (go "HTTP request failed with status: ")
                                           resp.(http.Status)) |} r
            else
              match resp.(http.Body) with
              | inr e =>
                rand.Value {| slept := delay; text := [];
                              err := Some (Errorf_w (go "reading response body failed: ") e) |} r
              | inl body => rand.Value {| slept := delay; text := body; err := None |} r
              end
          end
        end
      end
    end
  end.

(** The spec's sentence on responses with a 2xx status, as it is written:
    when the body reads, the page text comes back without an error. *)
Definition success_on_2xx (s : Scraper) : Prop :=
  forall net url r r' res resp body,
    fetchHTML s net url r = rand.Value res r' ->
    net.(http.NewRequestErr) url = None ->
    (forall req, net.(http.Do) req = inl resp) ->
    200 <= resp.(http.StatusCode) < 300 ->
    resp.(http.Body) = inl body ->
    res.(text) = body /\ res.(err) = None.

(** ** The aggregator

    [Run] starts goroutines that share the channel [results], the slice
    [allPlayers], the semaphore and the wait group; its runs are the
    interleavings of their steps.  [fetch] is what [fetchHTML] gives for a
    team's URL in the run at hand: the page, or nothing when it failed. *)

(** What [processTeam] sends on [results], in order. *)
Definition processTeam (s : Scraper) (fetch : Team -> option gostring) (team : Team)
  : list Player :=
  match fetch team with
  | None => []
  | Some html =>
    match extractPlayers s team html with
    | Ok players => players
    | Panic => []
    end
  end.

Module Run.

(** Where the main goroutine stands. *)
Inductive mainpc : Type :=
| Start                 (* before the first [go func] *)
| Launch (k : nat)      (* in the loop, at teams[k] *)
| WaitWorkers           (* wg.Wait() *)
| Close                 (* close(results) *)
| WaitCollector         (* collectorWg.Wait() *)
| WriteFile             (* writePlayersToFile(allPlayers) *)
| Done.

(** A worker: the players still to send, then the release of the semaphore,
    then the deferred [wg.Done]. *)
Inductive worker : Type :=
| Sending (players : list Player)
| Release
| Finish
| Gone.

(** A collector, in its [for player := range results] loop: waiting on the
    channel, holding a player received and not yet appended, or out of the
    loop. *)
Inductive collector : Type :=
| Receiving
| Holding (player : Player)
| Left.

Record state : Type := {
  pc : mainpc;
  results : list Player;          (* the buffer of the channel *)
  closed : bool;
  semaphore : nat;                 (* slots taken *)
  wg : nat;
  workers : list worker;
  collectors : list collector;     (* the first one, then the second *)
  allPlayers : list Player;
  written : option (list Player)   (* the slice given to the writer *)
}.

Definition init : state :=
  {| pc := Start; results := []; closed := false; semaphore := 0; wg := 0;
     workers := []; collectors := []; allPlayers := []; written := None |}.

Section Steps.

(** [limit] is [s.concurrency]; [sends] lists, per team, what its worker
    sends.  The channel holds up to [len(teams)] players. *)
Variable limit : nat.
Variable sends : list (list Player).

Inductive step : state -> state -> Prop :=
| main_collector1 st :
    st.(pc) = Start ->
    step st {| pc := Launch 0; results := st.(results); closed := st.(closed);
               semaphore := st.(semaphore); wg := st.(wg); workers := st.(workers);
               collectors := st.(collectors) ++ [Receiving];
               allPlayers := st.(allPlayers); written := st.(written) |}
| main_launch st k players :
    st.(pc) = Launch k ->
    sends !! k = Some players ->
    (st.(semaphore) < limit)%nat ->
    step st {| pc := Launch (S k); results := st.(results); closed := st.(closed);
               semaphore := S st.(semaphore); wg := S st.(wg);
               workers := st.(workers) ++ [Sending players];
               collectors := st.(collectors);
               allPlayers := st.(allPlayers); written := st.(written) |}
| main_collector2 st k :
    st.(pc) = Launch k ->
    sends !! k = None ->
    step st {| pc := WaitWorkers; results := st.(results); closed := st.(closed);
               semaphore := st.(semaphore); wg := st.(wg); workers := st.(workers);
               collectors := st.(collectors) ++ [Receiving];
               allPlayers := st.(allPlayers); written := st.(written) |}
| main_wait st :
    st.(pc) = WaitWorkers ->
    st.(wg) = O ->
    step st {| pc := Close; results := st.(results); closed := st.(closed);
               semaphore := st.(semaphore); wg := st.(wg); workers := st.(workers);
               collectors := st.(collectors);
               allPlayers := st.(allPlayers); written := st.(written) |}
| main_close st :
    st.(pc) = Close ->
    step st {| pc := WaitCollector; results := st.(results); closed := true;
               semaphore := st.(semaphore); wg := st.(wg); workers := st.(workers);
               collectors := st.(collectors);
               allPlayers := st.(allPlayers); written := st.(written) |}
| main_join st :
    st.(pc) = WaitCollector ->
    st.(collectors) !! 1%nat = Some Left ->
    step st {| pc := WriteFile; results := st.(results); closed := st.(closed);
               semaphore := st.(semaphore); wg := st.(wg); workers := st.(workers);
               collectors := st.(collectors);
               allPlayers := st.(allPlayers); written := st.(written) |}
| main_write st :
    st.(pc) = WriteFile ->
    step st {| pc := Done; results := st.(results); closed := st.(closed);
               semaphore := st.(semaphore); wg := st.(wg); workers := st.(workers);
               collectors := st.(collectors);
               allPlayers := st.(allPlayers); written := Some st.(allPlayers) |}
| worker_send st i p players :
    st.(workers) !! i = Some (Sending (p :: players)) ->
    st.(closed) = false ->
    (length st.(results) < length sends)%nat ->
    step st {| pc := st.(pc); results := st.(results) ++ [p]; closed := st.(closed);
               semaphore := st.(semaphore); wg := st.(wg);
               workers := <[i := Sending players]> st.(workers);
               collectors := st.(collectors);
               allPlayers := st.(allPlayers); written := st.(written) |}
| worker_sent st i :
    st.(workers) !! i = Some (Sending []) ->
    step st {| pc := st.(pc); results := st.(results); closed := st.(closed);
               semaphore := st.(semaphore); wg := st.(wg);
               workers := <[i := Release]> st.(workers);
               collectors := st.(collectors);
               allPlayers := st.(allPlayers); written := st.(written) |}
| worker_release st i :
    st.(workers) !! i = Some Release ->
    step st {| pc := st.(pc); results := st.(results); closed := st.(closed);
               semaphore := Nat.pred st.(semaphore); wg := st.(wg);
               workers := <[i := Finish]> st.(workers);
               collectors := st.(collectors);
               allPlayers := st.(allPlayers); written := st.(written) |}
| worker_done st i :
    st.(workers) !! i = Some Finish ->
    step st {| pc := st.(pc); results := st.(results); closed := st.(closed);
               semaphore := st.(semaphore); wg := Nat.pred st.(wg);
               workers := <[i := Gone]> st.(workers);
               collectors := st.(collectors);
               allPlayers := st.(allPlayers); written := st.(written) |}
| collector_receive st c p rest :
    st.(collectors) !! c = Some Receiving ->
    st.(results) = p :: rest ->
    step st {| pc := st.(pc); results := rest; closed := st.(closed);
               semaphore := st.(semaphore); wg := st.(wg); workers := st.(workers);
               collectors := <[c := Holding p]> st.(collectors);
               allPlayers := st.(allPlayers); written := st.(written) |}
| collector_append st c p :
    st.(collectors) !! c = Some (Holding p) ->
    step st {| pc := st.(pc); results := st.(results); closed := st.(closed);
               semaphore := st.(semaphore); wg := st.(wg); workers := st.(workers);
               collectors := <[c := Receiving]> st.(collectors);
               allPlayers := st.(allPlayers) ++ [p]; written := st.(written) |}
| collector_leave st c :
    st.(collectors) !! c = Some Receiving ->
    st.(results) = [] ->
    st.(closed) = true ->
    step st {| pc := st.(pc); results := st.(results); closed := st.(closed);
               semaphore := st.(semaphore); wg := st.(wg); workers := st.(workers);
               collectors := <[c := Left]> st.(collectors);
               allPlayers := st.(allPlayers); written := st.(written) |}.

End Steps.

(** Where the players of a run are: appended, held by a collector, in the
    channel, still with a worker, or with a team not yet launched. *)
Definition payload (w : worker) : list Player :=
  match w with Sending players => players | _ => [] end.

Definition holding (c : collector) : list Player :=
  match c with Holding p => [p] | _ => [] end.

Definition unlaunched (sends : list (list Player)) (at_ : mainpc) : list Player :=
  match at_ with
  | Start => concat sends
  | Launch k => concat (drop k sends)
  | _ => []
  end.

Definition inflight (sends : list (list Player)) (st : state) : list Player :=
  st.(allPlayers) ++ (st.(collectors) ≫= holding) ++ st.(results)
  ++ (st.(workers) ≫= payload) ++ unlaunched sends st.(pc).

(** No step makes or unmakes a player, and what the writer got stays a
    prefix of [allPlayers]. *)
Definition conserved (sends : list (list Player)) (st : state) : Prop :=
  inflight sends st ≡ₚ concat sends /\
  forall out, st.(written) = Some out -> out `prefix_of` st.(allPlayers).

(** [Run teams] can end having given [out] to the writer. *)
Definition ends (s : Scraper) (fetch : Team -> option gostring) (teams : list Team)
    (out : list Player) : Prop :=
  exists st,
    rtc (step (Z.to_nat s.(concurrency)) (map (processTeam s fetch) teams)) init st /\
    st.(pc) = Done /\ st.(written) = Some out.

End Run.


(** ** Sample rows and pages, for the examples *)

Module Sample.

Definition nl : gostring := [chr 10].

Definition team : Team := mkTeam "Walsall" "https://www.fifacm.com/25/team/1803/walsall".

(** Both thresholds of [NewScraper] met exactly. *)
Definition boundaryRow : gostring :=
  go "<tr class=odd><td><a href=p1> Ann Lee </a></td><td>61</td><td>70</td><td>12</td><td>18</td><td><b>$1.1M</b></td></tr>".

Definition loanRow : gostring :=
  go "<tr><td>Bob Ray <i>On Loan</i></td><td>65</td><td>80</td><td>15</td><td>19</td><td>$2M</td></tr>".

Definition headerRow : gostring :=
  go "<tr><th>Name</th><th>OVR</th><th>POT</th></tr>".

Definition shortRow : gostring :=
  go "<tr><td>Cy Orr</td><td>65</td><td>80</td><td>15</td><td>19</td></tr>".

Definition lowRow : gostring :=
  go "<tr><td>Dan Poe</td><td>58</td><td>60</td><td>12</td><td>21</td><td>$300K</td></tr>".

Definition goodRow : gostring :=
  go "<tr><td>Eli Fox</td><td>64</td><td>75</td><td>15</td><td>17</td><td>$900K</td></tr>".

(** Overall is not a number; age is twenty nines and a letter. *)
Definition oddRow : gostring :=
  go "<tr><td>Gus Hay</td><td>n/a</td><td>71</td><td>13</td><td>99999999999999999999x</td><td>free</td></tr>".

Definition goodPlayer : Player :=
  {| Profile := go "Eli Fox"; Team_ := go "Walsall"; Price := go "$900K";
     Age := 17; Overall := 64; Potential := 75; Growth := 15 |}.

Definition boundaryPlayer : Player :=
  {| Profile := go "Ann Lee"; Team_ := go "Walsall"; Price := go "$1.1M";
     Age := 18; Overall := 61; Potential := 70; Growth := 12 |}.

Definition page : gostring :=
  go "<table>" ++ headerRow ++ nl ++ goodRow ++ nl ++ loanRow ++ lowRow ++ nl
  ++ boundaryRow ++ go "</table>".

(** A page whose second row has an overall and an age that are no numbers. *)
Definition oddPage : gostring :=
  go "<table>" ++ goodRow ++ nl ++ oddRow ++ go "</table>".

(** [NewScraper] with one worker at a time. *)
Definition oneAtATime : Scraper := {|
  clientTimeout := NewScraper.(clientTimeout);
  minPotential := NewScraper.(minPotential);
  minGrowth := NewScraper.(minGrowth);
  outputFile := NewScraper.(outputFile);
  concurrency := 1;
  minDelay := NewScraper.(minDelay);
  maxDelay := NewScraper.(maxDelay);
  rowPattern := NewScraper.(rowPattern);
  cellPattern := NewScraper.(cellPattern);
  tagStripper := NewScraper.(tagStripper)
|}.

(** A page with one accepted row. *)
Definition smallPage : gostring := go "<table>" ++ goodRow ++ go "</table>".

(** A transport that answers every request with status 203 and a page. *)
Definition proxied : http.Transport := {|
  http.NewRequestErr := fun _ => None;
  http.Do := fun _ =>
    inl {| http.StatusCode := 203;
           http.Status := go "203 Non-Authoritative Information";
           http.Body := inl smallPage |}
|}.

(** A transport that answers every request with status 200 and a page. *)
Definition served : http.Transport := {|
  http.NewRequestErr := fun _ => None;
  http.Do := fun _ =>
    inl {| http.StatusCode := 200; http.Status := go "200 OK";
           http.Body := inl smallPage |}
|}.

(** Two values of the random source. *)
Definition draws : rand.Rand := [1234567890123456789; 987654321987654321].

End Sample.

(** ** More sample inputs *)

Module Cases.

(** A tag broken over two lines, between two words. *)
Definition brokenTag : gostring :=
  go " Al <b" ++ Sample.nl ++ go "class=x> Be ".

(** Potential is not a number. *)
Definition unratedRow : gostring :=
  go "<tr><td>Hal Ito</td><td>60</td><td>n/a</td><td>15</td><td>20</td><td>$1M</td></tr>".

(** [NewScraper] with both delays at two seconds. *)
Definition noJitter : Scraper := {|
  clientTimeout := NewScraper.(clientTimeout);
  minPotential := NewScraper.(minPotential);
  minGrowth := NewScraper.(minGrowth);
  outputFile := NewScraper.(outputFile);
  concurrency := NewScraper.(concurrency);
  minDelay := 2 * Second;
  maxDelay := 2 * Second;
  rowPattern := NewScraper.(rowPattern);
  cellPattern := NewScraper.(cellPattern);
  tagStripper := NewScraper.(tagStripper)
|}.

(** [NewScraper] with a semaphore without slots. *)
Definition noSlot : Scraper := {|
  clientTimeout := NewScraper.(clientTimeout);
  minPotential := NewScraper.(minPotential);
  minGrowth := NewScraper.(minGrowth);
  outputFile := NewScraper.(outputFile);
  concurrency := 0;
  minDelay := NewScraper.(minDelay);
  maxDelay := NewScraper.(maxDelay);
  rowPattern := NewScraper.(rowPattern);
  cellPattern := NewScraper.(cellPattern);
  tagStripper := NewScraper.(tagStripper)
|}.

End Cases.

(** The texts of the successive matches, collected on the way: what
    [FindAllString] returns, without the offsets. *)
Fixpoint texts (re : regexp.Regexp) (skip : nat) (s : gostring) : list gostring :=
  match s with
  | [] => []
  | _ :: s' =>
    match skip with
    | S k => texts re k s'
    | O =>
      match regexp.run re s with
      | Some r => take (fst r) s :: texts re (Nat.pred (fst r)) s'
      | None => texts re O s'
      end
    end
  end.

(** No instruction of the pattern is a literal newline. *)
Definition nonl (re : regexp.Regexp) : Prop :=
  Forall (fun i => i <> regexp.Char regexp.newline) re.

(** A run of literals, and the shift of a match by [n] bytes. *)
Definition lit (w : gostring) : regexp.Regexp := map regexp.Char w.

Definition shiftn (n : nat) (r : nat * list nat) : nat * list nat :=
  ((n + fst r)%nat, map (Nat.add n) (snd r)).

(** The pattern of a tag pair: an opening word, anything, [>], anything,
    a closing word; [sv] is empty, or a group boundary around the second
    stretch. *)
Definition pairRE (op cl : gostring) (sv : regexp.Regexp) : regexp.Regexp :=
  lit op ++ regexp.AnyStarLazy
    :: (lit [">"%char] ++ sv ++ regexp.AnyStarLazy :: (sv ++ lit cl)).


Module Shapes.

Definition row : gostring := go "<tr id=r1><td class=n><b>Al</b></td><td>7</td></tr>".

Definition firstCell : list gostring := [go "<td class=n><b>Al</b></td>"; go "<b>Al</b>"].

End Shapes.

(** ** The states of [Run] *)

Module RunFacts.
Import Run.

(** A worker that has not yet run its [wg.Done]. *)
Definition live (w : worker) : nat :=
  match w with Gone => 0 | _ => 1 end.

(** A worker that holds a slot of the semaphore. *)
Definition slotted (w : worker) : nat :=
  match w with Sending _ | Release => 1 | _ => 0 end.

(** What holds at each place of the main goroutine. *)
Definition phaseOf (at_ : mainpc) (ws : list worker) (cs : list collector)
    (isClosed : bool) (waiting : nat) : Prop :=
  match at_ with
  | Start => ws = [] /\ cs = [] /\ isClosed = false
  | Launch k => length ws = k /\ length cs = 1%nat /\ isClosed = false
  | WaitWorkers => length cs = 2%nat /\ isClosed = false
  | Close => length cs = 2%nat /\ isClosed = false /\ waiting = O
  | WaitCollector => length cs = 2%nat /\ isClosed = true /\ waiting = O
  | WriteFile | Done =>
    length cs = 2%nat /\ isClosed = true /\ waiting = O /\ cs !! 1%nat = Some Left
  end.

Definition phase (st : state) : Prop :=
  phaseOf st.(pc) st.(workers) st.(collectors) st.(closed) st.(wg).

(** The bookkeeping of a run: the semaphore counts the workers that hold a
    slot and stays within the limit, the wait group counts the workers yet
    to finish, there is at most one worker per team, the channel stays
    within its capacity, a collector has left its loop only with the
    channel closed and empty, and the writer has been called once the main
    goroutine is done. *)
Definition sound (limit : nat) (sends : list (list Player)) (st : state) : Prop :=
  st.(semaphore) = sum_list_with slotted st.(workers) /\
  (st.(semaphore) <= limit)%nat /\
  st.(wg) = sum_list_with live st.(workers) /\
  (length st.(workers) <= length sends)%nat /\
  (length st.(results) <= length sends)%nat /\
  phase st /\
  (forall c, st.(collectors) !! c = Some Left ->
     st.(closed) = true /\ st.(results) = []) /\
  (st.(pc) = Done -> exists out, st.(written) = Some out).

(** The steps a state still has ahead, at most. *)
Definition workerWeight (w : worker) : nat :=
  match w with
  | Sending players => 4 * length players + 3
  | Release => 2
  | Finish => 1
  | Gone => 0
  end.

Definition collectorWeight (c : collector) : nat :=
  match c with Holding _ => 2 | Receiving => 1 | Left => 0 end.

Definition teamWeight (players : list Player) : nat := 4 * length players + 4.

Definition pcWeight (sends : list (list Player)) (at_ : mainpc) : nat :=
  match at_ with
  | Start => 9 + sum_list_with teamWeight sends
  | Launch k => 7 + sum_list_with teamWeight (drop k sends)
  | WaitWorkers => 5
  | Close => 4
  | WaitCollector => 3
  | WriteFile => 2
  | Done => 1
  end.

Definition weight (sends : list (list Player)) (st : state) : nat :=
  pcWeight sends st.(pc) + sum_list_with workerWeight st.(workers)
  + sum_list_with collectorWeight st.(collectors) + 3 * length st.(results).

(** A state of the run of one team with one player, one worker at a time:
    the worker launched, nothing sent yet. *)
Definition launched : state :=
  {| pc := Launch 1; results := []; closed := false; semaphore := 1; wg := 1;
     workers := [Sending [Sample.goodPlayer]]; collectors := [Receiving];
     allPlayers := []; written := None |}.

(** The same run later: the first collector holds the player, the worker is
    gone, the channel is closed. *)
Definition closing : state :=
  {| pc := WaitCollector; results := []; closed := true; semaphore := 0; wg := 0;
     workers := [Gone]; collectors := [Holding Sample.goodPlayer; Receiving];
     allPlayers := []; written := None |}.

(** The end of that run. *)
Definition ended : state :=
  {| pc := Done; results := []; closed := true; semaphore := 0; wg := 0;
     workers := [Gone]; collectors := [Holding Sample.goodPlayer; Left];
     allPlayers := []; written := Some [] |}.

End RunFacts.

Module Pages.

(** A page without any table row. *)
Definition notFound : gostring := go "<html><body><h1>404 Not Found</h1></body></html>".

End Pages.

(** * Properties *)

(** ** The model on concrete inputs *)

Example NewScraper_patterns :
  regexp.Compile (go "<tr.*?>.*?</tr>") = Some NewScraper.(rowPattern) /\
  regexp.Compile (go "<td.*?>(.*?)</td>") = Some NewScraper.(cellPattern) /\
  regexp.Compile (go "<.*?>") = Some NewScraper.(tagStripper) /\
  NewScraper.(tagStripper) = tagRE.
Proof. repeat split. Qed.

Example rows_of_page :
  regexp.FindAllString NewScraper.(rowPattern) Sample.page =
    [Sample.headerRow; Sample.goodRow; Sample.loanRow; Sample.lowRow; Sample.boundaryRow].
Proof. vm_compute. reflexivity. Qed.

(** A row broken by a newline is no match: the dot stops there. *)
Example row_with_newline :
  regexp.FindAllString NewScraper.(rowPattern)
    (go "<tr><td>a</td>" ++ Sample.nl ++ go "</tr><tr>b</tr>") = [go "<tr>b</tr>"].
Proof. vm_compute. reflexivity. Qed.

Example cells_of_row :
  regexp.FindAllStringSubmatch NewScraper.(cellPattern)
    (go "<tr><td class=n><b>Al</b></td><td>7</td></tr>") =
    [[go "<td class=n><b>Al</b></td>"; go "<b>Al</b>"]; [go "<td>7</td>"; go "7"]].
Proof. vm_compute. reflexivity. Qed.

Example stripTags_nested :
  stripTags NewScraper (go "  <a href=x><b>Al</b> Be</a> <br") = go "Al Be <br".
Proof. vm_compute. reflexivity. Qed.

(** U+00A0 and U+3000 are trimmed; a lone 0xC2 is not. *)
Example TrimSpace_unicode :
  strings.TrimSpace ([chr 194; chr 160] ++ go " x " ++ [chr 227; chr 128; chr 128]) = go "x" /\
  strings.TrimSpace [chr 194; chr 32] = [chr 194].
Proof. vm_compute. split; reflexivity. Qed.

Example Atoi_values :
  strconv.Atoi (go "75") = (75, None) /\
  strconv.Atoi (go "-3") = (-3, None) /\
  strconv.Atoi (go "+") = (0, Some strconv.ErrSyntax) /\
  strconv.Atoi (go "7 5") = (0, Some strconv.ErrSyntax) /\
  strconv.Atoi [] = (0, Some strconv.ErrSyntax) /\
  strconv.Atoi (go "9223372036854775807") = (9223372036854775807, None) /\
  strconv.Atoi (go "9223372036854775808") = (9223372036854775807, Some strconv.ErrRange) /\
  strconv.Atoi (go "-9223372036854775809") = (-9223372036854775808, Some strconv.ErrRange) /\
  strconv.Atoi (go "99999999999999999999x") = (9223372036854775807, Some strconv.ErrRange).
Proof. vm_compute. repeat split. Qed.

Example team_in_catalogue : Sample.team ∈ teams /\ length teams = 24%nat.
Proof. split; [unfold teams; set_solver | reflexivity]. Qed.

(** The page of the spec's example: three well-formed rows, two of them at
    or above the thresholds 70 and 12, beside a header and a loan row. *)
Example extract_page :
  extractPlayers NewScraper Sample.team Sample.page =
    Ok [Sample.goodPlayer; Sample.boundaryPlayer].
Proof. vm_compute. reflexivity. Qed.

(** ** The matcher *)

Section Matcher.
Import regexp.

Lemma star_saves (k : gostring -> option (nat * list nat)) (m : nat) :
  (forall t r, k t = Some r -> length (snd r) = m) ->
  forall s r, star k s = Some r -> length (snd r) = m.
Proof.
  intros Hk s; induction s as [|x s IH]; intros r; simpl.
  - destruct (k []) eqn:E; [|discriminate]. intros [= <-]. eauto.
  - destruct (k (x :: s)) eqn:E.
    + intros [= <-]. eauto.
    + destruct (Ascii.eqb x newline); [discriminate|].
      destruct (star k s) as [r'|]; [|discriminate].
      intros [= <-]. simpl. rewrite length_map. eauto.
Qed.

(** A match records one offset per group boundary of the pattern. *)
Lemma run_saves (re : Regexp) :
  forall s r, run re s = Some r -> length (snd r) = saves re.
Proof.
  induction re as [|i re IH]; intros s r; simpl.
  - intros [= <-]. reflexivity.
  - destruct i.
    + destruct s as [|x s]; [discriminate|].
      destruct (Ascii.eqb x c); [|discriminate].
      destruct (run re s) as [r'|] eqn:E; [|discriminate].
      intros [= <-]. simpl. rewrite length_map. eauto.
    + apply star_saves. exact IH.
    + destruct (run re s) as [r'|] eqn:E; [|discriminate].
      intros [= <-]. simpl. f_equal. eauto.
Qed.

Lemma scan_run (re : Regexp) (s : gostring) :
  forall off skip m, m ∈ scan re off skip s -> exists t, run re t = Some (snd m).
Proof.
  induction s as [|x s IH]; intros off skip m; simpl.
  - intros H. inversion H.
  - destruct skip as [|k]; [|apply IH].
    destruct (run re (x :: s)) as [r|] eqn:E; [|apply IH].
    intros [-> | H]%elem_of_cons; [eauto | eapply IH, H].
Qed.

Lemma groups_length (s : gostring) (off : nat) :
  forall caps, length (groups s off caps) = Nat.div2 (length caps).
Proof.
  fix IH 1. intros [|a [|b caps]]; simpl; auto.
Qed.

(** [FindAllStringSubmatch] gives, per match, the whole match and one text
    per group of the pattern. *)
Lemma FindAllStringSubmatch_length (re : Regexp) (s : gostring) (m : list gostring) :
  m ∈ FindAllStringSubmatch re s -> length m = S (NumSubexp re).
Proof.
  unfold FindAllStringSubmatch.
  intros (x & -> & Hx)%list_elem_of_fmap.
  destruct (scan_run _ _ _ _ _ Hx) as [t Ht].
  unfold submatch, NumSubexp. simpl.
  rewrite groups_length. erewrite run_saves; eauto.
Qed.

Lemma scan_lower (re : Regexp) (s : gostring) :
  forall off skip m, m ∈ scan re off skip s -> (off + skip <= fst m)%nat.
Proof.
  induction s as [|x s IH]; intros off skip m; simpl.
  - intros H. inversion H.
  - destruct skip as [|k].
    + destruct (run re (x :: s)) as [r|] eqn:E.
      * intros [-> | H]%elem_of_cons; simpl; [lia|]. apply IH in H. lia.
      * intros H. apply IH in H. lia.
    + intros H. apply IH in H. lia.
Qed.

(** The matches come in the order of the text and do not overlap. *)
Lemma scan_ordered (re : Regexp) (s : gostring) :
  forall off skip i j mi mj,
    scan re off skip s !! i = Some mi -> scan re off skip s !! j = Some mj ->
    (i < j)%nat ->
    (fst mi < fst mj)%nat /\ (fst mi + fst (snd mi) <= fst mj)%nat.
Proof.
  induction s as [|x s IH]; intros off skip i j mi mj; simpl.
  - intros H. rewrite lookup_nil in H. discriminate.
  - destruct skip as [|k]; [|apply IH].
    destruct (run re (x :: s)) as [r|] eqn:E; [|apply IH].
    destruct i as [|i], j as [|j]; simpl; try lia.
    + intros [= <-] Hj _. apply list_elem_of_lookup_2, scan_lower in Hj. simpl. lia.
    + intros Hi Hj Hlt. eapply IH; eauto. lia.
Qed.

Lemma FindAllStringIndex_ordered (re : Regexp) (s : gostring) (i j : nat) (li lj : nat * nat) :
  FindAllStringIndex re s !! i = Some li ->
  FindAllStringIndex re s !! j = Some lj ->
  ((i < j)%nat <-> (fst li < fst lj)%nat) /\ ((i < j)%nat -> (snd li <= fst lj)%nat).
Proof.
  unfold FindAllStringIndex. rewrite !list_lookup_fmap.
  destruct (scan re 0 0 s !! i) as [mi|] eqn:Hi; [|discriminate].
  destruct (scan re 0 0 s !! j) as [mj|] eqn:Hj; [|discriminate].
  simpl. intros [= <-] [= <-]. simpl.
  assert (Hor : forall a b ma mb, scan re 0 0 s !! a = Some ma ->
            scan re 0 0 s !! b = Some mb -> (a < b)%nat -> (fst ma < fst mb)%nat).
  { intros a b ma mb Ha Hb Hab. eapply scan_ordered; eauto. }
  split; [split|].
  - eauto.
  - intros Hlt. destruct (Nat.lt_trichotomy i j) as [H | [-> | H]]; [exact H | |].
    + rewrite Hi in Hj. injection Hj as <-. lia.
    + pose proof (Hor _ _ _ _ Hj Hi H). lia.
  - intros Hlt. eapply scan_ordered; eauto.
Qed.

(** Each string of [FindAllString] is the text between the bounds that
    [FindAllStringIndex] gives at the same place. *)
Lemma FindAllString_at (re : Regexp) (s : gostring) (i : nat) (li : nat * nat) (r : gostring) :
  FindAllStringIndex re s !! i = Some li ->
  FindAllString re s !! i = Some r ->
  r = slice s (fst li) (snd li - fst li).
Proof.
  unfold FindAllStringIndex, FindAllString. rewrite !list_lookup_fmap.
  destruct (scan re 0 0 s !! i) as [mi|]; [|discriminate].
  simpl. intros [= <-] [= <-]. simpl. f_equal. lia.
Qed.

End Matcher.

(** ** Lists: the place of an element kept by [omap] *)

Section Omap.
Context {A B : Type} (f : A -> option B).

Lemma omap_take_lookup (l : list A) (k : nat) (x : A) (y : B) :
  l !! k = Some x -> f x = Some y ->
  omap f l !! length (omap f (take k l)) = Some y.
Proof.
  intros Hk Hx.
  replace (omap f l) with (omap f (take k l ++ x :: drop (S k) l))
    by (rewrite take_drop_middle; done).
  rewrite omap_app. simpl. rewrite Hx.
  rewrite lookup_app_r by lia. rewrite Nat.sub_diag. reflexivity.
Qed.

Lemma omap_take_mono (l : list A) (i j : nat) (x : A) (y : B) :
  l !! i = Some x -> f x = Some y -> (i < j)%nat ->
  (length (omap f (take i l)) < length (omap f (take j l)))%nat.
Proof.
  intros Hi Hx Hij.
  assert (E : take j l = take i l ++ x :: take (j - S i) (drop (S i) l)).
  { transitivity (take j (take i l ++ x :: drop (S i) l));
      [by rewrite take_drop_middle|].
    pose proof (lookup_lt_Some _ _ _ Hi) as Hlen.
    rewrite take_app, length_take, (take_ge (take i l)) by (rewrite length_take; lia).
    replace (j - i `min` length l)%nat with (S (j - S i)) by lia.
    reflexivity. }
  rewrite E, omap_app, length_app. simpl. rewrite Hx. simpl. lia.
Qed.

End Omap.

(** ** Package strconv *)

Section Strconv.
Import strconv.

Lemma code_range (c : ascii) : 0 <= code c < 256.
Proof.
  unfold code. pose proof (N_ascii_bounded c). lia.
Qed.

Lemma atoiLoop_nondigit (s : gostring) :
  forallb isDigit s = false -> forall n, atoiLoop s n = None.
Proof.
  induction s as [|c s IH]; simpl; [discriminate|].
  intros H n. pose proof (code_range c) as Hc.
  destruct (isDigit c) eqn:Hd; unfold isDigit in Hd; simpl in H.
  - destruct (Z.ltb_spec 9 ((code c - 48) mod 256)); [reflexivity|]. auto.
  - destruct (Z.ltb_spec 9 ((code c - 48) mod 256)) as [|Hle]; [reflexivity|].
    exfalso. apply andb_false_iff in Hd.
    rewrite !Z.leb_gt in Hd.
    destruct (Z.lt_ge_cases (code c) 48).
    + rewrite <- (Z.mod_unique (code c - 48) 256 (-1) (code c + 208)) in Hle; lia.
    + rewrite Z.mod_small in Hle; lia.
Qed.

(** A syntax error comes with the value zero. *)
Lemma Atoi_syntax_zero (s : gostring) :
  snd (Atoi s) = Some ErrSyntax -> fst (Atoi s) = 0.
Proof.
  unfold Atoi. destruct (_ && _).
  - destruct s as [|c s]; [reflexivity|].
    destruct (_ && _); [reflexivity|].
    destruct (atoiLoop _ 0); [discriminate | reflexivity].
  - unfold ParseInt. destruct s as [|c s]; [reflexivity|].
    destruct (ParseUint _) as [un [[]|]]; [reflexivity | |];
      repeat (destruct (_ && _); [discriminate|]); discriminate.
Qed.

(** A cell of fewer than 19 bytes that is no integer is a syntax error. *)
Lemma Atoi_short_noninteger (s : gostring) :
  isInteger s = false -> (length s < 19)%nat -> Atoi s = (0, Some ErrSyntax).
Proof.
  intros Hint Hlen. unfold Atoi.
  destruct s as [|c s]; [reflexivity|].
  replace ((0 <? length (c :: s))%nat && (length (c :: s) <? 19)%nat) with true.
  2:{ symmetry. apply andb_true_iff. split; apply Nat.ltb_lt; simpl in *; lia. }
  unfold isInteger in Hint.
  destruct (Ascii.eqb c "-" || Ascii.eqb c "+") eqn:Hsign; cbn [andb].
  - destruct (length s <? 1)%nat eqn:Hs; [reflexivity|]. simpl in Hint.
    rewrite atoiLoop_nondigit by exact Hint. reflexivity.
  - rewrite atoiLoop_nondigit by exact Hint. reflexivity.
Qed.

End Strconv.

(** ** Stripping tags *)

Section Trim.
Import strings.
Variable sp2 : ascii -> ascii -> bool.
Variable sp3 : ascii -> ascii -> ascii -> bool.

Lemma trimLead_fixed (s : gostring) :
  leads sp2 sp3 s = false -> trimLead sp2 sp3 s = s.
Proof.
  destruct s as [|a [|b [|c t]]]; simpl; try reflexivity.
  - destruct (asciiSpace a); [discriminate | reflexivity].
  - destruct (asciiSpace a); [discriminate|]. simpl.
    destruct (sp2 a b); [discriminate | reflexivity].
  - destruct (asciiSpace a); [discriminate|]. simpl.
    destruct (sp2 a b); [discriminate|]. simpl.
    destruct (sp3 a b c); [discriminate | reflexivity].
Qed.

(** What [trimLead] returns is a suffix of its argument and starts with no
    space. *)
Lemma trimLead_spec (n : nat) :
  forall s, (length s <= n)%nat ->
    leads sp2 sp3 (trimLead sp2 sp3 s) = false /\
    exists a, s = a ++ trimLead sp2 sp3 s.
Proof.
  induction n as [|n IH]; intros s Hn.
  - destruct s; [|simpl in Hn; lia]. split; [reflexivity | exists []; reflexivity].
  - destruct s as [|a t1]; [split; [reflexivity | exists []; reflexivity]|].
    simpl in Hn. cbn [trimLead].
    destruct (asciiSpace a) eqn:Ea.
    { destruct (IH t1) as [Hl [p Hp]]; [lia|].
      split; [exact Hl | exists (a :: p); simpl; congruence]. }
    destruct t1 as [|b t2].
    { split; [simpl; rewrite Ea; reflexivity | exists []; reflexivity]. }
    simpl in Hn. destruct (sp2 a b) eqn:Eb.
    { destruct (IH t2) as [Hl [p Hp]]; [lia|].
      split; [exact Hl | exists (a :: b :: p); simpl; congruence]. }
    destruct t2 as [|c t3].
    { split; [simpl; rewrite Ea, Eb; reflexivity | exists []; reflexivity]. }
    simpl in Hn. destruct (sp3 a b c) eqn:Ec.
    { destruct (IH t3) as [Hl [p Hp]]; [lia|].
      split; [exact Hl | exists (a :: b :: c :: p); simpl; congruence]. }
    split; [simpl; rewrite Ea, Eb, Ec; reflexivity | exists []; reflexivity].
Qed.

Lemma trimLead_leads (s : gostring) : leads sp2 sp3 (trimLead sp2 sp3 s) = false.
Proof. apply (trimLead_spec (length s)). lia. Qed.

Lemma trimLead_suffix (s : gostring) : exists a, s = a ++ trimLead sp2 sp3 s.
Proof. apply (trimLead_spec (length s)). lia. Qed.

Lemma trimLead_idem (s : gostring) :
  trimLead sp2 sp3 (trimLead sp2 sp3 s) = trimLead sp2 sp3 s.
Proof. apply trimLead_fixed, trimLead_leads. Qed.

Lemma leads_prefix (z b : gostring) :
  leads sp2 sp3 (z ++ b) = false -> leads sp2 sp3 z = false.
Proof.
  destruct z as [|x [|y [|w z]]]; simpl; try reflexivity.
  - destruct (asciiSpace x); [|reflexivity]. destruct b; discriminate.
  - destruct (asciiSpace x); [discriminate|]. simpl.
    destruct (sp2 x y); [discriminate | reflexivity].
  - auto.
Qed.

End Trim.

Section TrimSpace.
Import strings.

Lemma TrimRight_prefix (y : gostring) : exists b, y = TrimRight y ++ b.
Proof.
  unfold TrimRight.
  destruct (trimLead_suffix (fun b a => space2 a b) (fun c b a => space3 a b c) (rev y))
    as [p Hp].
  exists (rev p). rewrite <- rev_app_distr, <- Hp, rev_involutive. reflexivity.
Qed.

(** [TrimSpace] keeps a stretch of its argument. *)
Lemma TrimSpace_middle (s : gostring) : exists a b, s = a ++ TrimSpace s ++ b.
Proof.
  unfold TrimSpace, TrimLeft.
  destruct (trimLead_suffix space2 space3 s) as [a Ha].
  destruct (TrimRight_prefix (trimLead space2 space3 s)) as [b Hb].
  exists a, b. rewrite <- Hb. exact Ha.
Qed.

Lemma TrimSpace_idem (s : gostring) : TrimSpace (TrimSpace s) = TrimSpace s.
Proof.
  unfold TrimSpace.
  set (y := TrimLeft s). set (z := TrimRight y).
  assert (Hz : TrimLeft z = z).
  { apply trimLead_fixed.
    destruct (TrimRight_prefix y) as [b Hb].
    apply (leads_prefix _ _ z b). fold z in Hb. rewrite <- Hb.
    apply trimLead_leads. }
  rewrite Hz. unfold z, TrimRight.
  rewrite rev_involutive, trimLead_idem. reflexivity.
Qed.

End TrimSpace.

Section Tags.
Import regexp.

Lemma star_close (t : gostring) :
  star (run [Char ">"]) t = None <-> closes t = false.
Proof.
  set (k := run [Char ">"]).
  assert (Hk : forall x t, k (x :: t) = if Ascii.eqb x ">" then Some (1%nat, []) else None).
  { intros x u. unfold k. simpl. destruct (Ascii.eqb x ">"); reflexivity. }
  induction t as [|x t IH]; [simpl; tauto|].
  cbn [star closes]. rewrite Hk.
  destruct (Ascii.eqb x ">"); [split; discriminate|].
  destruct (Ascii.eqb x newline); [tauto|].
  destruct (star k t) as [r|]; simpl.
  - split; [discriminate|]. intros H. apply IH in H. discriminate.
  - split; [intros _; apply IH|]; reflexivity.
Qed.

(** Where the tag pattern does not match. *)
Lemma run_tag_None (c : ascii) (t : gostring) :
  run tagRE (c :: t) = None <-> Ascii.eqb c "<" = false \/ closes t = false.
Proof.
  change (run tagRE (c :: t)) with
    (if Ascii.eqb c "<" then option_map shift (star (run [Char ">"]) t) else None).
  destruct (Ascii.eqb c "<").
  - rewrite <- star_close.
    destruct (star (run [Char ">"]) t); simpl.
    + split; [intros H; discriminate H | intros [H|H]; discriminate H].
    + split; auto.
  - split; auto.
Qed.

Lemma closes_app (t b : gostring) : closes t = true -> closes (t ++ b) = true.
Proof.
  induction t as [|x t IH]; simpl; [discriminate|].
  destruct (Ascii.eqb x ">"); [reflexivity|].
  destruct (Ascii.eqb x newline); [discriminate | exact IH].
Qed.

Lemma tagfree_tail (x : ascii) (r : gostring) : tagfree (x :: r) -> tagfree r.
Proof. intros H pre t E. apply (H (x :: pre) t). simpl. congruence. Qed.

Lemma tagfree_middle (a z b : gostring) : tagfree (a ++ z ++ b) -> tagfree z.
Proof.
  intros H pre t E.
  destruct (closes t) eqn:Ec; [|reflexivity].
  rewrite <- (H (a ++ pre) (t ++ b)).
  - symmetry. apply closes_app, Ec.
  - rewrite E. rewrite <- !app_assoc. reflexivity.
Qed.

(** Once the matches are out, the text after a [<] that did not close
    still does not close. *)
Lemma replace_closes (s : gostring) :
  closes s = false -> closes (replace tagRE [] 0 s) = false.
Proof.
  induction s as [|c s IH]; [reflexivity|]. intros H.
  simpl in H. cbn [replace].
  destruct (Ascii.eqb c ">") eqn:Egt; [discriminate|].
  assert (Hrun : run tagRE (c :: s) = None).
  { apply run_tag_None. destruct (Ascii.eqb c newline) eqn:Enl; [|auto].
    left. apply Ascii.eqb_eq in Enl. subst c. reflexivity. }
  rewrite Hrun. simpl. rewrite Egt.
  destruct (Ascii.eqb c newline); [reflexivity | auto].
Qed.

(** The text left by the replacement holds no tag. *)
Lemma replace_tagfree (s : gostring) :
  forall skip, tagfree (replace tagRE [] skip s).
Proof.
  induction s as [|x s IH]; intros skip.
  - intros [|? ?] t; discriminate.
  - cbn [replace]. destruct skip as [|k]; [|apply IH].
    destruct (run tagRE (x :: s)) as [r|] eqn:E; [apply IH|].
    intros [|y pre] t Ht; simpl in Ht; injection Ht as -> Ht.
    + subst t. apply replace_closes.
      apply run_tag_None in E. destruct E as [E|E]; [discriminate | exact E].
    + eapply IH, Ht.
Qed.

(** A text without tags is left as it is. *)
Lemma replace_fixed (x : gostring) :
  tagfree x -> replace tagRE [] 0 x = x.
Proof.
  induction x as [|c x IH]; [reflexivity|]. intros H. cbn [replace].
  assert (Hrun : run tagRE (c :: x) = None).
  { apply run_tag_None. destruct (Ascii.eqb c "<") eqn:E; [|auto].
    right. apply Ascii.eqb_eq in E. subst c. apply (H [] x). reflexivity. }
  rewrite Hrun. f_equal. apply IH. eapply tagfree_tail, H.
Qed.

End Tags.

(** ** The extractor *)

Lemma bind_Ok {A B : Type} (a : A) (k : A -> result B) : (Ok a ≫= k) = k a.
Proof. reflexivity. Qed.

Section Extractor.

Variable s : Scraper.
Variable team : Team.

Lemma configured_NumSubexp :
  configured s -> regexp.NumSubexp s.(cellPattern) = 1%nat.
Proof. intros (_ & -> & _). reflexivity. Qed.

(** With the cell pattern of [NewScraper], cols[k][1] exists for every
    match [k]. *)
Lemma cell_ok (row : gostring) (k : nat) :
  configured s -> (k < cellCount s row)%nat -> exists c, cell s row k = Ok c.
Proof.
  intros Hs Hk. unfold cell, cellCount, index2, index in *.
  destruct (lookup_lt_is_Some_2 _ _ Hk) as [m Hm]. rewrite Hm. simpl.
  assert (Hlen : length m = 2%nat).
  { rewrite <- (configured_NumSubexp Hs).
    eapply FindAllStringSubmatch_length, list_elem_of_lookup_2, Hm. }
  destruct m as [|m0 [|m1 m]]; simpl in Hlen; try lia. simpl. eauto.
Qed.

Lemma cell_count (row : gostring) (k : nat) (c : gostring) :
  cell s row k = Ok c -> (k < cellCount s row)%nat.
Proof.
  unfold cell, cellCount, index2, index.
  destruct (_ !! k) eqn:E; [|discriminate].
  intros _. eapply lookup_lt_Some, E.
Qed.

(** The loop body on a row whose six cells are known. *)
Lemma extractRow_cells (row c0 c1 c2 c3 c4 c5 : gostring) :
  cell s row 0 = Ok c0 -> cell s row 1 = Ok c1 -> cell s row 2 = Ok c2 ->
  cell s row 3 = Ok c3 -> cell s row 4 = Ok c4 -> cell s row 5 = Ok c5 ->
  extractRow s team row =
    if strings.Contains (stripTags s c0) (go "Loan") then Ok None else
    let potential := strconv.Atoi (stripTags s c2) in
    if bool_decide (snd potential ≠ None) || (fst potential <? s.(minPotential)) then Ok None else
    let growth := strconv.Atoi (stripTags s c3) in
    if bool_decide (snd growth ≠ None) || (fst growth <? s.(minGrowth)) then Ok None else
    Ok (Some {| Profile := stripTags s c0; Team_ := team.(Name);
                Price := stripTags s c5;
                Age := fst (strconv.Atoi (stripTags s c4));
                Overall := fst (strconv.Atoi (stripTags s c1));
                Potential := fst potential; Growth := fst growth |}).
Proof.
  intros H0 H1 H2 H3 H4 H5. unfold extractRow.
  pose proof (cell_count _ _ _ H5) as Hn. unfold cellCount in Hn.
  destruct (Nat.ltb_spec (length (regexp.FindAllStringSubmatch (cellPattern s) row)) 6);
    [lia|].
  unfold cell in *. rewrite H0. simpl.
  destruct (strings.Contains _ _); [reflexivity|].
  rewrite H2. simpl. destruct (strconv.Atoi (stripTags s c2)) as [p ep]. simpl.
  destruct (_ || _); [reflexivity|].
  rewrite H3. simpl. destruct (strconv.Atoi (stripTags s c3)) as [g eg]. simpl.
  destruct (_ || _); [reflexivity|].
  rewrite H1. simpl. rewrite H4. simpl. rewrite H5. reflexivity.
Qed.

Lemma extractRow_short (row : gostring) :
  (cellCount s row < 6)%nat -> extractRow s team row = Ok None.
Proof.
  unfold cellCount, extractRow. intros H.
  destruct (Nat.ltb_spec (length (regexp.FindAllStringSubmatch (cellPattern s) row)) 6);
    [reflexivity | lia].
Qed.

(** The loop body never indexes out of range. *)
Lemma extractRow_ok (row : gostring) :
  configured s -> exists o, extractRow s team row = Ok o.
Proof.
  intros Hs.
  destruct (Nat.lt_ge_cases (cellCount s row) 6) as [Hlt | Hge].
  - rewrite extractRow_short by exact Hlt. eauto.
  - destruct (cell_ok row 0 Hs) as [c0 H0]; [lia|].
    destruct (cell_ok row 1 Hs) as [c1 H1]; [lia|].
    destruct (cell_ok row 2 Hs) as [c2 H2]; [lia|].
    destruct (cell_ok row 3 Hs) as [c3 H3]; [lia|].
    destruct (cell_ok row 4 Hs) as [c4 H4]; [lia|].
    destruct (cell_ok row 5 Hs) as [c5 H5]; [lia|].
    rewrite (extractRow_cells _ _ _ _ _ _ _ H0 H1 H2 H3 H4 H5).
    destruct (strings.Contains _ _); [eauto|]. simpl.
    destruct (_ || _); [eauto|].
    destruct (_ || _); eauto.
Qed.

Lemma extractRow_accepted (row : gostring) (o : option Player) :
  extractRow s team row = Ok o -> accepted s team row = o.
Proof. unfold accepted. intros ->. reflexivity. Qed.

(** The loop appends what each row adds, in the order of the rows. *)
Lemma extractLoop_accepted (rows : list gostring) :
  (forall row, row ∈ rows -> exists o, extractRow s team row = Ok o) ->
  forall players,
    extractLoop s team rows players = Ok (players ++ omap (accepted s team) rows).
Proof.
  induction rows as [|row rows IH]; intros Hok players; simpl.
  - rewrite app_nil_r. reflexivity.
  - destruct (Hok row) as [o Ho]; [left|].
    rewrite Ho, (extractRow_accepted _ _ Ho). simpl.
    destruct o as [p|]; rewrite IH by (intros; apply Hok; right; done).
    + rewrite <- app_assoc. reflexivity.
    + reflexivity.
Qed.

Lemma extractPlayers_accepted (html : gostring) :
  configured s ->
  extractPlayers s team html =
    Ok (omap (accepted s team) (regexp.FindAllString s.(rowPattern) html)).
Proof.
  intros Hs. unfold extractPlayers.
  rewrite extractLoop_accepted; [reflexivity|].
  intros row _. apply extractRow_ok, Hs.
Qed.

(** A row the body skips can be taken out of the page's rows. *)
Lemma extractLoop_skip (row : gostring) :
  extractRow s team row = Ok None ->
  forall pre post players,
    extractLoop s team (pre ++ row :: post) players =
    extractLoop s team (pre ++ post) players.
Proof.
  intros Hrow pre post. induction pre as [|r pre IH]; intros players; simpl.
  - rewrite Hrow. reflexivity.
  - destruct (extractRow s team r) as [[p|]|]; simpl; auto.
Qed.

(** Every accepted player passed both thresholds. *)
Lemma extractRow_thresholds (row : gostring) (p : Player) :
  extractRow s team row = Ok (Some p) ->
  s.(minPotential) <= p.(Potential) /\ s.(minGrowth) <= p.(Growth).
Proof.
  unfold extractRow.
  destruct (_ <? _)%nat; [discriminate|].
  destruct (index2 _ 0 1); [simpl|discriminate].
  destruct (strings.Contains _ _); [discriminate|].
  destruct (index2 _ 2 1); [simpl|discriminate].
  destruct (strconv.Atoi _) as [pot ep].
  destruct (bool_decide _); [discriminate|]. simpl.
  destruct (Z.ltb_spec pot (minPotential s)); [discriminate|].
  destruct (index2 _ 3 1); [simpl|discriminate].
  destruct (strconv.Atoi _) as [gr eg].
  destruct (bool_decide _); [discriminate|]. simpl.
  destruct (Z.ltb_spec gr (minGrowth s)); [discriminate|].
  destruct (index2 _ 1 1); [simpl|discriminate].
  destruct (index2 _ 4 1); [simpl|discriminate].
  destruct (index2 _ 5 1); [simpl|discriminate].
  intros [= <-]. simpl. lia.
Qed.

(** An accepted row of the page has its record in the list the extractor
    returns, at the place [recordIndex] counts. *)
Lemma extractPlayers_emits (html : gostring) (i : nat) (row : gostring) (p : Player) :
  configured s ->
  regexp.FindAllString s.(rowPattern) html !! i = Some row ->
  extractRow s team row = Ok (Some p) ->
  exists players,
    extractPlayers s team html = Ok players /\
    players !! recordIndex s team (regexp.FindAllString s.(rowPattern) html) i = Some p.
Proof.
  intros Hs Hi Hrow. rewrite extractPlayers_accepted by exact Hs.
  eexists. split; [reflexivity|]. unfold recordIndex.
  eapply omap_take_lookup; [exact Hi|]. apply extractRow_accepted, Hrow.
Qed.

(** A skipped row of the page leaves the list the extractor returns as the
    loop over the other rows builds it. *)
Lemma extractPlayers_omits (html : gostring) (pre post : list gostring) (row : gostring) :
  configured s ->
  regexp.FindAllString s.(rowPattern) html = pre ++ row :: post ->
  extractRow s team row = Ok None ->
  exists players,
    extractPlayers s team html = Ok players /\
    extractLoop s team (pre ++ post) [] = Ok players.
Proof.
  intros Hs Hrows Hrow.
  assert (E : extractPlayers s team html = extractLoop s team (pre ++ post) []).
  { unfold extractPlayers. rewrite Hrows. apply extractLoop_skip, Hrow. }
  rewrite <- E, extractPlayers_accepted by exact Hs. eauto.
Qed.

End Extractor.

(** ** Claims about the extractor *)

Lemma configured_NewScraper : configured NewScraper.
Proof. repeat split. Qed.

(** C5. A row with fewer than six cell fragments yields no record: the loop
    body skips it, and the output of the loop is the one for the rows
    without it. *)
Theorem short_row_skipped (s : Scraper) (team : Team) (row : gostring) :
  (cellCount s row < 6)%nat ->
  extractRow s team row = Ok None /\
  forall pre post players,
    extractLoop s team (pre ++ row :: post) players =
    extractLoop s team (pre ++ post) players.
Proof.
  intros H. pose proof (extractRow_short s team row H) as Hrow.
  split; [exact Hrow | apply extractLoop_skip, Hrow].
Qed.

Lemma short_row_skipped_witness :
  (cellCount NewScraper Sample.shortRow < 6)%nat /\
  extractRow NewScraper Sample.team Sample.shortRow = Ok None.
Proof.
  assert (H : (cellCount NewScraper Sample.shortRow < 6)%nat) by (vm_compute; lia).
  split; [exact H|].
  exact (proj1 (short_row_skipped NewScraper Sample.team Sample.shortRow H)).
Defined.

(** C4. A row whose name cell, once stripped of its tags, contains "Loan"
    yields no record, whatever its other cells hold. *)
Theorem loan_row_skipped (s : Scraper) (team : Team) (row c0 : gostring) :
  cell s row 0 = Ok c0 ->
  strings.Contains (stripTags s c0) (go "Loan") = true ->
  extractRow s team row = Ok None /\
  forall pre post players,
    extractLoop s team (pre ++ row :: post) players =
    extractLoop s team (pre ++ post) players.
Proof.
  intros H0 Hloan.
  assert (Hrow : extractRow s team row = Ok None).
  { unfold extractRow. destruct (_ <? _)%nat; [reflexivity|].
    unfold cell in H0. rewrite H0, bind_Ok, Hloan. reflexivity. }
  split; [exact Hrow | apply extractLoop_skip, Hrow].
Qed.

Lemma loan_row_skipped_witness :
  extractRow NewScraper Sample.team Sample.loanRow = Ok None.
Proof.
  refine (proj1 (loan_row_skipped NewScraper Sample.team Sample.loanRow
                   (go "Bob Ray <i>On Loan</i>") _ _)); vm_compute; reflexivity.
Defined.

(** C10. The extractor returns a list on every input and never indexes out
    of range: each cell match carries the whole match and one group, the
    six cells read exist once the count guard has passed, and a page
    without rows (the empty string among them) gives the empty list. *)
Theorem extractPlayers_total (s : Scraper) (team : Team) :
  configured s ->
  (forall html, exists players, extractPlayers s team html = Ok players) /\
  (forall row cols,
     cols ∈ regexp.FindAllStringSubmatch s.(cellPattern) row -> length cols = 2%nat) /\
  (forall row k, (6 <= cellCount s row)%nat -> (k < 6)%nat ->
     exists c, cell s row k = Ok c) /\
  (forall row, exists o, extractRow s team row = Ok o) /\
  (forall html, regexp.FindAllString s.(rowPattern) html = [] ->
     extractPlayers s team html = Ok []) /\
  extractPlayers s team [] = Ok [].
Proof.
  intros Hs. repeat apply conj.
  - intros html. rewrite extractPlayers_accepted by exact Hs. eauto.
  - intros row cols H. rewrite <- (configured_NumSubexp s Hs).
    eapply FindAllStringSubmatch_length, H.
  - intros row k H6 Hk. apply cell_ok; [exact Hs | lia].
  - intros row. apply extractRow_ok, Hs.
  - intros html H. unfold extractPlayers. rewrite H. reflexivity.
  - reflexivity.
Qed.

Lemma extractPlayers_total_witness :
  exists players, extractPlayers NewScraper Sample.team Sample.page = Ok players.
Proof.
  exact (proj1 (extractPlayers_total NewScraper Sample.team configured_NewScraper)
           Sample.page).
Defined.

(** C3. Every record of the extractor has potential and growth at or above
    the configured minima.  A row that sits exactly on both minima and
    passes the other checks is emitted: in every page that has it as a row
    the list the extractor returns holds its record, at the place
    [recordIndex] counts.  A row below either minimum is excluded: the list
    the extractor returns for a page that has it is the one the loop builds
    from the other rows of the page. *)
Theorem thresholds_inclusive (s : Scraper) (team : Team) :
  configured s ->
  (forall html, exists players,
     extractPlayers s team html = Ok players /\
     Forall (fun p => s.(minPotential) <= p.(Potential) /\ s.(minGrowth) <= p.(Growth))
       players) /\
  (forall row c0 c2 c3,
     (6 <= cellCount s row)%nat ->
     cell s row 0 = Ok c0 -> cell s row 2 = Ok c2 -> cell s row 3 = Ok c3 ->
     strings.Contains (stripTags s c0) (go "Loan") = false ->
     strconv.Atoi (stripTags s c2) = (s.(minPotential), None) ->
     strconv.Atoi (stripTags s c3) = (s.(minGrowth), None) ->
     exists p, extractRow s team row = Ok (Some p) /\
       p.(Potential) = s.(minPotential) /\ p.(Growth) = s.(minGrowth) /\
       forall html i,
         regexp.FindAllString s.(rowPattern) html !! i = Some row ->
         exists players,
           extractPlayers s team html = Ok players /\
           players !! recordIndex s team (regexp.FindAllString s.(rowPattern) html) i
             = Some p) /\
  (forall row c2 c3,
     cell s row 2 = Ok c2 -> cell s row 3 = Ok c3 ->
     fst (strconv.Atoi (stripTags s c2)) < s.(minPotential) \/
     fst (strconv.Atoi (stripTags s c3)) < s.(minGrowth) ->
     extractRow s team row = Ok None /\
     forall html pre post,
       regexp.FindAllString s.(rowPattern) html = pre ++ row :: post ->
       exists players,
         extractPlayers s team html = Ok players /\
         extractLoop s team (pre ++ post) [] = Ok players).
Proof.
  intros Hs. split; [|split].
  - intros html. rewrite extractPlayers_accepted by exact Hs.
    eexists; split; [reflexivity|].
    apply Forall_forall. intros p (row & _ & Hp)%list_elem_of_omap.
    apply (extractRow_thresholds s team row).
    unfold accepted in Hp. destruct (extractRow s team row); congruence.
  - intros row c0 c2 c3 H6 H0 H2 H3 Hloan Hp Hg.
    destruct (cell_ok s row 1 Hs) as [c1 H1]; [lia|].
    destruct (cell_ok s row 4 Hs) as [c4 H4]; [lia|].
    destruct (cell_ok s row 5 Hs) as [c5 H5]; [lia|].
    pose proof (extractRow_cells s team _ _ _ _ _ _ _ H0 H1 H2 H3 H4 H5) as Hrow.
    rewrite Hloan, Hp, Hg in Hrow. simpl in Hrow.
    rewrite !Z.ltb_irrefl in Hrow. simpl in Hrow.
    eexists. split; [exact Hrow|]. split; [reflexivity|]. split; [reflexivity|].
    intros html i Hi. eapply extractPlayers_emits; eauto.
  - intros row c2 c3 H2 H3 Hlow.
    assert (Hrow : extractRow s team row = Ok None).
    { destruct (Nat.lt_ge_cases (cellCount s row) 6) as [Hlt | Hge].
      { apply extractRow_short, Hlt. }
      destruct (cell_ok s row 0 Hs) as [c0 H0]; [lia|].
      destruct (cell_ok s row 1 Hs) as [c1 H1]; [lia|].
      destruct (cell_ok s row 4 Hs) as [c4 H4]; [lia|].
      destruct (cell_ok s row 5 Hs) as [c5 H5]; [lia|].
      rewrite (extractRow_cells s team _ _ _ _ _ _ _ H0 H1 H2 H3 H4 H5).
      destruct (strings.Contains _ _); [reflexivity|]. simpl.
      destruct (Z.ltb_spec (fst (strconv.Atoi (stripTags s c2))) (minPotential s));
        [rewrite orb_true_r; reflexivity|].
      destruct (bool_decide _); [reflexivity|]. simpl.
      destruct (Z.ltb_spec (fst (strconv.Atoi (stripTags s c3))) (minGrowth s));
        [rewrite orb_true_r; reflexivity|].
      lia. }
    split; [exact Hrow|].
    intros html pre post Hrows. eapply extractPlayers_omits; eauto.
Qed.

Lemma thresholds_inclusive_witness :
  exists players p,
    extractPlayers NewScraper Sample.team Sample.page = Ok players /\
    players !! 1%nat = Some p /\
    extractRow NewScraper Sample.team Sample.boundaryRow = Ok (Some p) /\
    p.(Potential) = 70 /\ p.(Growth) = 12 /\
    extractRow NewScraper Sample.team Sample.lowRow = Ok None /\
    extractLoop NewScraper Sample.team
      [Sample.headerRow; Sample.goodRow; Sample.loanRow; Sample.boundaryRow] []
      = Ok players.
Proof.
  destruct (thresholds_inclusive NewScraper Sample.team configured_NewScraper)
    as (_ & Hin & Hout).
  destruct (Hin Sample.boundaryRow (go "<a href=p1> Ann Lee </a>") (go "70") (go "12"))
    as (p & Hrow & Hpot & Hgr & Hpage);
    try (vm_compute; solve [reflexivity | lia]).
  destruct (Hpage Sample.page 4%nat) as (players & Hplayers & Hat);
    [vm_compute; reflexivity|].
  assert (E : recordIndex NewScraper Sample.team
                (regexp.FindAllString NewScraper.(rowPattern) Sample.page) 4 = 1%nat)
    by (vm_compute; reflexivity).
  rewrite E in Hat.
  destruct (Hout Sample.lowRow (go "60") (go "12")) as (Hlow & Hrest);
    [vm_compute; reflexivity .. | left; vm_compute; reflexivity |].
  destruct (Hrest Sample.page [Sample.headerRow; Sample.goodRow; Sample.loanRow]
              [Sample.boundaryRow]) as (players' & Hplayers' & Hloop);
    [vm_compute; reflexivity|].
  assert (players' = players) as -> by congruence.
  exists players, p. repeat apply conj; assumption.
Defined.

(** C7, as the spec words it, fails: a cell whose leading digits overflow
    64 bits makes [Atoi] return the largest [int] with its range error,
    also when a letter follows the digits, and the loop keeps that value. *)
Lemma malformed_defaults_to_zero_fails : ~ malformed_defaults_to_zero NewScraper.
Proof.
  intros H.
  destruct (H Sample.team Sample.oddRow (go "n/a") (go "99999999999999999999x")
              {| Profile := go "Gus Hay"; Team_ := go "Walsall"; Price := go "free";
                 Age := 9223372036854775807; Overall := 0;
                 Potential := 71; Growth := 13 |}) as [_ Hage];
    try (vm_compute; reflexivity).
  specialize (Hage eq_refl). discriminate Hage.
Qed.

(** C7, amended. A row that passes the name, potential and growth checks is
    emitted whatever its overall and age cells hold: in every page that has
    it as a row the list the extractor returns holds its record, at the
    place [recordIndex] counts.  The two fields of that record are the
    values [Atoi] returns with its error dropped, zero whenever [Atoi]
    reports a syntax error, as it does for every cell of fewer than 19 bytes
    that is no integer; the price is the stripped text of its cell. *)
Theorem best_effort_fields (s : Scraper) (team : Team) (row c0 c1 c2 c3 c4 c5 : gostring) :
  cell s row 0 = Ok c0 -> cell s row 1 = Ok c1 -> cell s row 2 = Ok c2 ->
  cell s row 3 = Ok c3 -> cell s row 4 = Ok c4 -> cell s row 5 = Ok c5 ->
  strings.Contains (stripTags s c0) (go "Loan") = false ->
  snd (strconv.Atoi (stripTags s c2)) = None ->
  s.(minPotential) <= fst (strconv.Atoi (stripTags s c2)) ->
  snd (strconv.Atoi (stripTags s c3)) = None ->
  s.(minGrowth) <= fst (strconv.Atoi (stripTags s c3)) ->
  exists p,
    extractRow s team row = Ok (Some p) /\
    p.(Price) = stripTags s c5 /\
    p.(Overall) = fst (strconv.Atoi (stripTags s c1)) /\
    p.(Age) = fst (strconv.Atoi (stripTags s c4)) /\
    (snd (strconv.Atoi (stripTags s c1)) = Some strconv.ErrSyntax -> p.(Overall) = 0) /\
    (snd (strconv.Atoi (stripTags s c4)) = Some strconv.ErrSyntax -> p.(Age) = 0) /\
    (isInteger (stripTags s c1) = false -> (length (stripTags s c1) < 19)%nat ->
       p.(Overall) = 0) /\
    (isInteger (stripTags s c4) = false -> (length (stripTags s c4) < 19)%nat ->
       p.(Age) = 0) /\
    (forall html i,
       configured s ->
       regexp.FindAllString s.(rowPattern) html !! i = Some row ->
       exists players,
         extractPlayers s team html = Ok players /\
         players !! recordIndex s team (regexp.FindAllString s.(rowPattern) html) i
           = Some p).
Proof.
  intros H0 H1 H2 H3 H4 H5 Hloan Hpe Hp Hge Hg.
  pose proof (extractRow_cells s team _ _ _ _ _ _ _ H0 H1 H2 H3 H4 H5) as Hrow.
  rewrite Hloan in Hrow. cbv zeta in Hrow. rewrite Hpe, Hge in Hrow.
  rewrite (bool_decide_eq_false_2 (None ≠ None)) in Hrow
    by (intros H; apply H; reflexivity).
  rewrite !orb_false_l in Hrow.
  destruct (Z.ltb_spec (fst (strconv.Atoi (stripTags s c2))) (minPotential s)); [lia|].
  destruct (Z.ltb_spec (fst (strconv.Atoi (stripTags s c3))) (minGrowth s)); [lia|].
  eexists. split; [exact Hrow|]. simpl.
  repeat apply conj; try reflexivity.
  - apply Atoi_syntax_zero.
  - apply Atoi_syntax_zero.
  - intros Hi Hl. rewrite (Atoi_short_noninteger _ Hi Hl). reflexivity.
  - intros Hi Hl. rewrite (Atoi_short_noninteger _ Hi Hl). reflexivity.
  - intros html i Hs Hi. eapply extractPlayers_emits; eauto.
Qed.

Lemma best_effort_fields_witness :
  exists players p,
    extractPlayers NewScraper Sample.team Sample.oddPage = Ok players /\
    players !! 1%nat = Some p /\
    extractRow NewScraper Sample.team Sample.oddRow = Ok (Some p) /\
    p.(Price) = go "free" /\ p.(Overall) = 0 /\ p.(Age) = 9223372036854775807.
Proof.
  destruct (best_effort_fields NewScraper Sample.team Sample.oddRow
              (go "Gus Hay") (go "n/a") (go "71") (go "13")
              (go "99999999999999999999x") (go "free"))
    as (p & Hp & Hprice & _ & Hage & Hov & _ & _ & _ & Hpage);
    try (vm_compute; solve [reflexivity | discriminate]).
  destruct (Hpage Sample.oddPage 1%nat configured_NewScraper)
    as (players & Hplayers & Hat); [vm_compute; reflexivity|].
  assert (E : recordIndex NewScraper Sample.team
                (regexp.FindAllString NewScraper.(rowPattern) Sample.oddPage) 1 = 1%nat)
    by (vm_compute; reflexivity).
  rewrite E in Hat.
  exists players, p.
  repeat apply conj; [exact Hplayers | exact Hat | exact Hp | exact Hprice | | ].
  - apply Hov. vm_compute. reflexivity.
  - rewrite Hage. vm_compute. reflexivity.
Defined.

(** C8. The records of a page come in the order of its rows: when an
    accepted row starts before another accepted row in the page text, its
    record stands at an earlier place of the output.  The places are those
    [recordIndex] counts, each row is the text between its bounds, and the
    first row ends before the second starts. *)
Theorem row_order_kept (s : Scraper) (team : Team) (html : gostring)
    (i j : nat) (li lj : nat * nat) (ri rj : gostring) (pi pj : Player) :
  configured s ->
  regexp.FindAllStringIndex s.(rowPattern) html !! i = Some li ->
  regexp.FindAllStringIndex s.(rowPattern) html !! j = Some lj ->
  regexp.FindAllString s.(rowPattern) html !! i = Some ri ->
  regexp.FindAllString s.(rowPattern) html !! j = Some rj ->
  (fst li < fst lj)%nat ->
  extractRow s team ri = Ok (Some pi) ->
  extractRow s team rj = Ok (Some pj) ->
  exists players,
    extractPlayers s team html = Ok players /\
    players !! recordIndex s team (regexp.FindAllString s.(rowPattern) html) i = Some pi /\
    players !! recordIndex s team (regexp.FindAllString s.(rowPattern) html) j = Some pj /\
    (recordIndex s team (regexp.FindAllString s.(rowPattern) html) i <
     recordIndex s team (regexp.FindAllString s.(rowPattern) html) j)%nat /\
    ri = slice html (fst li) (snd li - fst li) /\
    rj = slice html (fst lj) (snd lj - fst lj) /\
    (snd li <= fst lj)%nat.
Proof.
  intros Hs Hli Hlj Hri Hrj Hlt Hpi Hpj.
  destruct (FindAllStringIndex_ordered _ _ _ _ _ _ Hli Hlj) as [Hiff Hend].
  apply Hiff in Hlt.
  apply extractRow_accepted in Hpi, Hpj.
  rewrite extractPlayers_accepted by exact Hs.
  eexists. split; [reflexivity|]. unfold recordIndex.
  repeat apply conj.
  - eapply omap_take_lookup; eauto.
  - eapply omap_take_lookup; eauto.
  - eapply omap_take_mono; eauto.
  - eapply FindAllString_at; eauto.
  - eapply FindAllString_at; eauto.
  - auto.
Qed.

Lemma row_order_kept_witness :
  exists players,
    extractPlayers NewScraper Sample.team Sample.page = Ok players /\
    players !! 0%nat = Some Sample.goodPlayer /\
    players !! 1%nat = Some Sample.boundaryPlayer.
Proof.
  destruct (row_order_kept NewScraper Sample.team Sample.page 1 4
              (54, 137)%nat (318, 435)%nat Sample.goodRow Sample.boundaryRow
              Sample.goodPlayer Sample.boundaryPlayer configured_NewScraper)
    as (players & H & Hi & Hj & _); try (vm_compute; reflexivity).
  { vm_compute. lia. }
  exists players. split; [exact H|]. split; [exact Hi | exact Hj].
Defined.

(** C6. Stripping the tags of a stripped text changes nothing. *)
Theorem stripTags_idempotent (s : Scraper) (input : gostring) :
  configured s ->
  stripTags s (stripTags s input) = stripTags s input.
Proof.
  intros (_ & _ & Htag). unfold stripTags, regexp.ReplaceAllString.
  rewrite Htag. change (tagStripper NewScraper) with tagRE.
  set (r := regexp.replace tagRE [] 0 input).
  destruct (TrimSpace_middle r) as (a & b & Hr).
  assert (Hfree : tagfree (strings.TrimSpace r)).
  { apply (tagfree_middle a _ b). rewrite <- Hr. apply replace_tagfree. }
  rewrite (replace_fixed _ Hfree). apply TrimSpace_idem.
Qed.

Lemma stripTags_idempotent_witness :
  stripTags NewScraper (stripTags NewScraper (go " <a href=p1> Ann <b>Lee</b> </a> ")) =
  stripTags NewScraper (go " <a href=p1> Ann <b>Lee</b> </a> ").
Proof.
  exact (stripTags_idempotent NewScraper (go " <a href=p1> Ann <b>Lee</b> </a> ")
           configured_NewScraper).
Defined.

(** ** The fetcher *)

Lemma wrapInt64_small (n : Z) : isInt64 n -> wrapInt64 n = n.
Proof.
  unfold isInt64, wrapInt64. intros H. rewrite Z.mod_small; lia.
Qed.

Lemma land_bounds (v b : Z) : 0 <= v -> 0 <= b -> 0 <= Z.land v b <= b.
Proof.
  intros Hv Hb. split; [apply Z.land_nonneg; auto|].
  pose proof (N.land_le_r (Z.to_N v) (Z.to_N b)) as H.
  pose proof (N2Z.inj_land (Z.to_N v) (Z.to_N b)) as E.
  rewrite !Z2N.id in E by assumption. lia.
Qed.

Lemma reject_range (max n : Z) (r : rand.Rand) (v : Z) (r' : rand.Rand) :
  0 < n -> rand.reject max n r = rand.Value v r' -> 0 <= v < n.
Proof.
  intros Hn. induction r as [|x r IH]; simpl; [discriminate|].
  destruct (max <? x); [exact IH|].
  intros [= <- _]. apply Z.mod_pos_bound, Hn.
Qed.

(** [Int63n(n)] returns a value of [0, n). *)
Lemma Int63n_range (n : Z) (r : rand.Rand) (v : Z) (r' : rand.Rand) :
  rand.valid r -> rand.Int63n n r = rand.Value v r' -> 0 < n /\ 0 <= v < n.
Proof.
  intros Hr. unfold rand.Int63n.
  destruct (Z.leb_spec n 0); [discriminate|].
  destruct (Z.land n (n - 1) =? 0).
  - destruct r as [|x r]; [discriminate|]. intros [= <- _].
    apply Forall_cons in Hr as [Hx _].
    pose proof (land_bounds x (n - 1)). lia.
  - intros E. split; [lia | eapply reject_range; eauto; lia].
Qed.

Lemma Int63n_returns (n v : Z) (r : rand.Rand) :
  0 < n -> v <= 2 ^ 63 - 1 - 2 ^ 63 mod n ->
  exists x, rand.Int63n n (v :: r) = rand.Value x r.
Proof.
  intros Hn Hv. unfold rand.Int63n.
  destruct (Z.leb_spec n 0); [lia|].
  destruct (Z.land n (n - 1) =? 0); [eauto|]. simpl.
  destruct (Z.ltb_spec (2 ^ 63 - 1 - 2 ^ 63 mod n) v); [lia | eauto].
Qed.

(** C9. With [minDelay < maxDelay], every delay that [fetchHTML] computes
    lies in [minDelay, maxDelay), whatever the random source gives; and a
    delay is computed when the difference fits an int64 and the first draw
    is within the bound of the rejection loop. *)
Theorem pacing_delay_in_interval (s : Scraper) (r : rand.Rand) :
  isInt64 s.(minDelay) -> isInt64 s.(maxDelay) ->
  s.(minDelay) < s.(maxDelay) ->
  rand.valid r ->
  (forall d r', pacingDelay s r = rand.Value d r' ->
     s.(minDelay) <= d < s.(maxDelay)) /\
  (s.(maxDelay) - s.(minDelay) < 2 ^ 63 ->
   forall v r0, r = v :: r0 ->
     v <= 2 ^ 63 - 1 - 2 ^ 63 mod (s.(maxDelay) - s.(minDelay)) ->
     exists d, pacingDelay s r = rand.Value d r0 /\
       s.(minDelay) <= d < s.(maxDelay)).
Proof.
  intros Hmin Hmax Hlt Hr.
  assert (Hsafe : forall d r', pacingDelay s r = rand.Value d r' ->
            s.(minDelay) <= d < s.(maxDelay)).
  { intros d r'. unfold pacingDelay.
    destruct (rand.Int63n _ r) as [v r1| |] eqn:E; try discriminate.
    intros [= <- _]. apply Int63n_range in E as [Hn Hv]; [|exact Hr].
    assert (Hw : wrapInt64 (maxDelay s - minDelay s) = maxDelay s - minDelay s).
    { unfold isInt64 in *.
      destruct (Z.lt_ge_cases (maxDelay s - minDelay s) (2 ^ 63)) as [Hs|Hb].
      - apply wrapInt64_small. unfold isInt64. lia.
      - exfalso. unfold wrapInt64 in Hn.
        rewrite <- (Z.mod_unique (maxDelay s - minDelay s + 2 ^ 63) (2 ^ 64) 1
                      (maxDelay s - minDelay s - 2 ^ 63)) in Hn; lia. }
    rewrite Hw in Hv. rewrite wrapInt64_small; unfold isInt64 in *; lia. }
  split; [exact Hsafe|].
  intros Hfit v r0 -> Hv.
  unfold pacingDelay in *.
  rewrite wrapInt64_small in * by (unfold isInt64 in *; lia).
  destruct (Int63n_returns (maxDelay s - minDelay s) v r0) as [x Hx]; [lia | exact Hv|].
  specialize (Hsafe (wrapInt64 (minDelay s + x)) r0).
  rewrite Hx in *. eauto.
Qed.

Lemma pacing_delay_in_interval_witness :
  exists d, pacingDelay NewScraper Sample.draws = rand.Value d [987654321987654321] /\
    2000000000 <= d < 5000000000.
Proof.
  assert (Hr : rand.valid Sample.draws).
  { repeat constructor; vm_compute; congruence. }
  refine (proj2 (pacing_delay_in_interval NewScraper Sample.draws _ _ _ Hr) _
            1234567890123456789 [987654321987654321] eq_refl _);
    vm_compute; try split; congruence.
Defined.

(** C2, as the spec words it, fails: a response with status 203 whose body
    reads is an error for [fetchHTML]. *)
Lemma success_on_2xx_fails : ~ success_on_2xx NewScraper.
Proof.
  intros H.
  destruct (H Sample.proxied Sample.team.(URL) Sample.draws []
              {| slept := 2123456789; text := [];
                 err := Some (Errorf_s (go "HTTP request failed with status: ")
                                (go "203 Non-Authoritative Information")) |}
              {| http.StatusCode := 203;
                 http.Status := go "203 Non-Authoritative Information";
                 http.Body := inl Sample.smallPage |}
              Sample.smallPage) as [_ Herr];
    try (vm_compute; reflexivity).
  - vm_compute. split; congruence.
  - discriminate Herr.
Qed.

(** C2, amended. [fetchHTML] returns an error exactly when the request
    cannot be built, the transport fails, the status is not 200, or reading
    the body fails; the error wraps the cause in the first, second and last
    case and carries the status text in the third, and the text returned
    with it is empty; a response with status 200 whose body reads gives the
    page text and no error.  The name of the source is no argument of
    [fetchHTML]: its caller logs it beside the error. *)
Theorem fetchHTML_error_cases (s : Scraper) (net : http.Transport) (url : gostring)
    (r r' : rand.Rand) (res : fetched) :
  fetchHTML s net url r = rand.Value res r' ->
  exists userAgent, userAgent ∈ userAgents /\
    (res.(err) = None <->
       net.(http.NewRequestErr) url = None /\
       exists resp body,
         net.(http.Do) (request url userAgent) = inl resp /\
         resp.(http.StatusCode) = 200 /\ resp.(http.Body) = inl body) /\
    (forall resp body,
       net.(http.NewRequestErr) url = None ->
       net.(http.Do) (request url userAgent) = inl resp ->
       resp.(http.StatusCode) = 200 -> resp.(http.Body) = inl body ->
       res.(text) = body /\ res.(err) = None) /\
    (res.(err) <> None -> res.(text) = []) /\
    (forall e, net.(http.NewRequestErr) url = Some e ->
       res.(err) = Some (Errorf_w (go "failed to create request: ") e)) /\
    (forall e, net.(http.NewRequestErr) url = None ->
       net.(http.Do) (request url userAgent) = inr e ->
       res.(err) = Some (Errorf_w (go "HTTP request failed: ") e)) /\
    (forall resp, net.(http.NewRequestErr) url = None ->
       net.(http.Do) (request url userAgent) = inl resp ->
       resp.(http.StatusCode) <> 200 ->
       res.(err) = Some (Errorf_s (go "HTTP request failed with status: ")
                           resp.(http.Status))) /\
    (forall resp e, net.(http.NewRequestErr) url = None ->
       net.(http.Do) (request url userAgent) = inl resp ->
       resp.(http.StatusCode) = 200 -> resp.(http.Body) = inr e ->
       res.(err) = Some (Errorf_w (go "reading response body failed: ") e)).
Proof.
  unfold fetchHTML.
  destruct (pacingDelay s r) as [delay r1| |]; try discriminate.
  destruct (http.NewRequestErr net url) as [e0|] eqn:Enew.
  { intros [= <- _].
    exists (go "Mozilla/5.0 (Windows NT 10.0; Win64; x64; rv:89.0) Gecko/20100101 Firefox/89.0").
    split; [unfold userAgents; set_solver|]. simpl.
    repeat apply conj; try congruence.
    intros [E _]. discriminate E. }
  destruct (rand.Intn _ r1) as [i r2| |]; try discriminate.
  destruct (userAgents !! Z.to_nat i) as [userAgent|] eqn:Eua; try discriminate.
  intros H.
  exists userAgent. split; [eapply list_elem_of_lookup_2, Eua|].
  destruct (http.Do net (request url userAgent)) as [resp|e1] eqn:Edo.
  2:{ injection H as <- _. simpl. repeat apply conj; try congruence.
      intros (_ & resp & body & E & _). discriminate E. }
  unfold http.StatusOK in H.
  destruct (Z.eqb_spec (http.StatusCode resp) 200) as [Hok|Hbad]; simpl in H.
  2:{ injection H as <- _. simpl. repeat apply conj; try congruence.
      intros (_ & resp' & body & E & Hc & _). congruence. }
  destruct (http.Body resp) as [body|e2] eqn:Ebody; injection H as <- _; simpl.
  - repeat apply conj; try congruence.
    + intros _. split; [reflexivity|]. eauto.
    + intros resp' body' _ [= <-] _ Hb. split; congruence.
  - repeat apply conj; try congruence.
    intros (_ & resp' & body & E & _ & Hb). congruence.
Qed.

Lemma fetchHTML_error_cases_witness :
  fetchHTML NewScraper Sample.served Sample.team.(URL) Sample.draws =
    rand.Value {| slept := 2123456789; text := Sample.smallPage; err := None |} [] /\
  exists userAgent, userAgent ∈ userAgents.
Proof.
  assert (H : fetchHTML NewScraper Sample.served Sample.team.(URL) Sample.draws =
    rand.Value {| slept := 2123456789; text := Sample.smallPage; err := None |} [])
    by (vm_compute; reflexivity).
  split; [exact H|].
  destruct (fetchHTML_error_cases _ _ _ _ _ _ H) as (userAgent & Hin & _).
  exists userAgent. exact Hin.
Defined.

(** [fetchHTML] returns once the random source has given a value within
    the bound of each of the two rejection loops. *)
Lemma fetchHTML_returns (s : Scraper) (net : http.Transport) (url : gostring)
    (v1 v2 : Z) (r : rand.Rand) :
  isInt64 s.(minDelay) -> isInt64 s.(maxDelay) ->
  0 < s.(maxDelay) - s.(minDelay) < 2 ^ 63 ->
  v1 <= 2 ^ 63 - 1 - 2 ^ 63 mod (s.(maxDelay) - s.(minDelay)) ->
  0 <= Z.shiftr v2 32 <= 2147483645 ->
  exists res r', fetchHTML s net url (v1 :: v2 :: r) = rand.Value res r'.
Proof.
  intros Hmin Hmax Hd Hv1 Hv2. unfold fetchHTML, pacingDelay.
  rewrite wrapInt64_small by (unfold isInt64 in *; lia).
  destruct (Int63n_returns (maxDelay s - minDelay s) v1 (v2 :: r)) as [x ->]; [lia | exact Hv1|].
  destruct (http.NewRequestErr net url); [eauto|].
  change (rand.Intn (Z.of_nat (length userAgents)) (v2 :: r)) with
    (if 2147483645 <? Z.shiftr v2 32
     then rand.reject31 2147483645 3 r
     else rand.Value (Z.shiftr v2 32 mod 3) r).
  destruct (Z.ltb_spec 2147483645 (Z.shiftr v2 32)); [lia|].
  pose proof (Z.mod_pos_bound (Z.shiftr v2 32) 3 ltac:(lia)) as Hm.
  destruct (lookup_lt_is_Some_2 userAgents (Z.to_nat (Z.shiftr v2 32 mod 3))) as [ua ->].
  { simpl. lia. }
  destruct (http.Do net _) as [resp|e]; [|eauto].
  destruct (negb _); [eauto|].
  destruct (http.Body resp); eauto.
Qed.

(** ** The aggregator *)

Section Conservation.
Import Run.
Variable limit : nat.
Variable sends : list (list Player).

Lemma bind_insert {A : Type} (f : A -> list Player) (l : list A) (i : nat) (x y : A) :
  l !! i = Some x ->
  exists rest, l ≫= f ≡ₚ f x ++ rest /\ <[i:=y]> l ≫= f ≡ₚ f y ++ rest.
Proof.
  intros Hi. pose proof (lookup_lt_Some _ _ _ Hi) as Hlt.
  exists ((take i l ≫= f) ++ (drop (S i) l ≫= f)). split.
  - rewrite <- (take_drop_middle l i x Hi) at 1.
    rewrite bind_app, bind_cons. solve_Permutation.
  - rewrite insert_take_drop by exact Hlt.
    rewrite bind_app, bind_cons. solve_Permutation.
Qed.

Lemma conserved_init : conserved sends init.
Proof.
  split; [|discriminate]. unfold inflight. simpl. reflexivity.
Qed.

Lemma conserved_step (st st' : state) :
  conserved sends st -> step limit sends st st' -> conserved sends st'.
Proof.
  intros [Hperm Hpre] Hstep. unfold conserved, inflight in *.
  destruct Hstep; simpl in *;
    repeat match goal with H : pc _ = _ |- _ => rewrite H in Hperm; simpl in Hperm end.
  - split; [|exact Hpre]. rewrite bind_app. simpl. rewrite <- Hperm. solve_Permutation.
  - split; [|exact Hpre]. rewrite bind_app. simpl.
    rewrite (drop_S _ _ _ H0) in Hperm. simpl in Hperm.
    rewrite <- Hperm. solve_Permutation.
  - split; [|exact Hpre]. rewrite bind_app. simpl.
    rewrite drop_ge in Hperm by (apply lookup_ge_None; exact H0). simpl in Hperm.
    rewrite <- Hperm. solve_Permutation.
  - split; [exact Hperm | exact Hpre].
  - split; [exact Hperm | exact Hpre].
  - split; [exact Hperm | exact Hpre].
  - split; [exact Hperm|]. intros out [= <-]. reflexivity.
  - split; [|exact Hpre].
    destruct (bind_insert payload _ i _ (Sending players) H) as (others & E1 & E2).
    rewrite E2. rewrite E1 in Hperm. rewrite <- Hperm. simpl. solve_Permutation.
  - split; [|exact Hpre].
    destruct (bind_insert payload _ i _ Release H) as (others & E1 & E2).
    rewrite E2. rewrite E1 in Hperm. exact Hperm.
  - split; [|exact Hpre].
    destruct (bind_insert payload _ i _ Finish H) as (others & E1 & E2).
    rewrite E2. rewrite E1 in Hperm. exact Hperm.
  - split; [|exact Hpre].
    destruct (bind_insert payload _ i _ Gone H) as (others & E1 & E2).
    rewrite E2. rewrite E1 in Hperm. exact Hperm.
  - split; [|exact Hpre].
    destruct (bind_insert holding _ c _ (Holding p) H) as (others & E1 & E2).
    rewrite E2. rewrite E1, H0 in Hperm. rewrite <- Hperm. simpl. solve_Permutation.
  - split.
    + destruct (bind_insert holding _ c _ Receiving H) as (others & E1 & E2).
      rewrite E2. rewrite E1 in Hperm. rewrite <- Hperm. simpl. solve_Permutation.
    + intros out Hout. apply prefix_app_r, Hpre, Hout.
  - split; [|exact Hpre].
    destruct (bind_insert holding _ c _ Left H) as (others & E1 & E2).
    rewrite E2. rewrite E1 in Hperm. exact Hperm.
Qed.

Lemma conserved_rtc (st : state) :
  rtc (step limit sends) init st -> conserved sends st.
Proof.
  intros H.
  revert st H. apply (rtc_ind_r (R := step limit sends)); [apply conserved_init|].
  intros y z _ Hstep IH. eapply conserved_step; eauto.
Qed.

End Conservation.

(** Whatever the schedule, the records [Run] gives to the writer are among
    those its workers sent, each at most as often as it was sent: a record
    can be lost, none is doubled or made up. *)
Lemma Run_never_duplicates (s : Scraper) (fetch : Team -> option gostring)
    (teams : list Team) (out : list Player) :
  Run.ends s fetch teams out ->
  out ⊆+ concat (map (processTeam s fetch) teams).
Proof.
  intros (st & Hrun & _ & Hout).
  destruct (conserved_rtc _ _ _ Hrun) as [Hperm Hpre].
  rewrite <- Hperm. unfold Run.inflight.
  destruct (Hpre out Hout) as [more ->].
  apply submseteq_inserts_r, submseteq_inserts_r. reflexivity.
Qed.

Section Trace.
Import Run.

Ltac run_step c :=
  eapply rtc_l; [c; simpl; try reflexivity; try lia | simpl].

(** C1. One team whose page holds one accepted row, one worker at a time:
    the extractor gives one record, and [Run] has a run that hands the
    writer no record at all.  The first collector takes the record off the
    channel; the worker ends, the channel is closed and the second
    collector leaves its loop; the main goroutine, which waits for the
    second collector only, writes before the first one has appended. *)
Theorem Run_drops_record :
  extractPlayers Sample.oneAtATime Sample.team Sample.smallPage = Ok [Sample.goodPlayer] /\
  Run.ends Sample.oneAtATime (fun _ => Some Sample.smallPage) [Sample.team] [].
Proof.
  split; [vm_compute; reflexivity|].
  unfold ends.
  replace (map (processTeam Sample.oneAtATime (fun _ => Some Sample.smallPage))
             [Sample.team])
    with [[Sample.goodPlayer]] by (vm_compute; reflexivity).
  change (Z.to_nat (concurrency Sample.oneAtATime)) with 1%nat.
  eexists. split; [|split].
  - run_step ltac:(apply main_collector1).
    run_step ltac:(eapply (main_launch _ _ _ 0 [Sample.goodPlayer])).
    run_step ltac:(eapply (main_collector2 _ _ _ 1)).
    run_step ltac:(eapply (worker_send _ _ _ 0 Sample.goodPlayer [])).
    run_step ltac:(eapply (collector_receive _ _ _ 0 Sample.goodPlayer [])).
    run_step ltac:(eapply (worker_sent _ _ _ 0)).
    run_step ltac:(eapply (worker_release _ _ _ 0)).
    run_step ltac:(eapply (worker_done _ _ _ 0)).
    run_step ltac:(apply main_wait).
    run_step ltac:(apply main_close).
    run_step ltac:(eapply (collector_leave _ _ _ 1)).
    run_step ltac:(apply main_join).
    run_step ltac:(apply main_write).
    apply rtc_refl.
  - reflexivity.
  - reflexivity.
Qed.

(** The same input has a run in which the record reaches the writer: the
    loss above is one of scheduling. *)
Lemma Run_can_collect :
  Run.ends Sample.oneAtATime (fun _ => Some Sample.smallPage) [Sample.team]
    [Sample.goodPlayer].
Proof.
  unfold ends.
  replace (map (processTeam Sample.oneAtATime (fun _ => Some Sample.smallPage))
             [Sample.team])
    with [[Sample.goodPlayer]] by (vm_compute; reflexivity).
  change (Z.to_nat (concurrency Sample.oneAtATime)) with 1%nat.
  eexists. split; [|split].
  - run_step ltac:(apply main_collector1).
    run_step ltac:(eapply (main_launch _ _ _ 0 [Sample.goodPlayer])).
    run_step ltac:(eapply (main_collector2 _ _ _ 1)).
    run_step ltac:(eapply (worker_send _ _ _ 0 Sample.goodPlayer [])).
    run_step ltac:(eapply (collector_receive _ _ _ 1 Sample.goodPlayer [])).
    run_step ltac:(eapply (collector_append _ _ _ 1 Sample.goodPlayer)).
    run_step ltac:(eapply (worker_sent _ _ _ 0)).
    run_step ltac:(eapply (worker_release _ _ _ 0)).
    run_step ltac:(eapply (worker_done _ _ _ 0)).
    run_step ltac:(apply main_wait).
    run_step ltac:(apply main_close).
    run_step ltac:(eapply (collector_leave _ _ _ 1)).
    run_step ltac:(apply main_join).
    run_step ltac:(apply main_write).
    apply rtc_refl.
  - reflexivity.
  - reflexivity.
Qed.

End Trace.

(** * Further properties of the code *)

(** ** stripTags *)

Section StripMore.
Import regexp strings.

Lemma replace_sublist (re : Regexp) (s : gostring) :
  forall skip, replace re [] skip s `sublist_of` s.
Proof.
  induction s as [|x s IH]; intros skip; cbn [replace]; [constructor|].
  destruct skip as [|k]; [|apply sublist_cons, IH].
  destruct (run re (x :: s)); [apply sublist_cons, IH | apply sublist_skip, IH].
Qed.

Lemma TrimSpace_sublist (s : gostring) : TrimSpace s `sublist_of` s.
Proof.
  destruct (TrimSpace_middle s) as (a & b & E). rewrite E at 2.
  apply sublist_inserts_l, sublist_inserts_r. reflexivity.
Qed.

(** X1. [stripTags] only deletes: its result is the input with some bytes
    left out, in the same order, and is never longer than the input. *)
Theorem stripTags_only_deletes (s : Scraper) (input : gostring) :
  stripTags s input `sublist_of` input /\
  (length (stripTags s input) <= length input)%nat.
Proof.
  assert (H : stripTags s input `sublist_of` input).
  { unfold stripTags, ReplaceAllString.
    etransitivity; [apply TrimSpace_sublist | apply replace_sublist]. }
  split; [exact H | apply sublist_length, H].
Qed.

Lemma scan_tagfree (r : gostring) :
  tagfree r -> forall off, scan tagRE off 0 r = [].
Proof.
  induction r as [|c r IH]; intros Hfree off; [reflexivity|]. cbn [scan].
  assert (Hrun : run tagRE (c :: r) = None).
  { apply run_tag_None. destruct (Ascii.eqb c "<") eqn:E; [|auto].
    right. apply Ascii.eqb_eq in E. subst c. apply (Hfree [] r). reflexivity. }
  rewrite Hrun. apply IH. eapply tagfree_tail, Hfree.
Qed.

Lemma tagfree_fixed (x : gostring) : replace tagRE [] 0 x = x -> tagfree x.
Proof. intros E. rewrite <- E. apply replace_tagfree. Qed.

Lemma stripTags_tagfree (s : Scraper) (input : gostring) :
  configured s -> tagfree (stripTags s input).
Proof.
  intros (_ & _ & Htag). unfold stripTags, ReplaceAllString.
  rewrite Htag. change (tagStripper NewScraper) with tagRE.
  destruct (TrimSpace_middle (replace tagRE [] 0 input)) as (a & b & Hr).
  apply (tagfree_middle a _ b). rewrite <- Hr. apply replace_tagfree.
Qed.

(** X2. No tag is left in a stripped text: the tag pattern has no match in
    the result of [stripTags]. *)
Theorem stripTags_leaves_no_tag (s : Scraper) (input : gostring) :
  configured s ->
  FindAllString s.(tagStripper) (stripTags s input) = [].
Proof.
  intros Hs. pose proof (stripTags_tagfree s input Hs) as Hfree.
  destruct Hs as (_ & _ & Htag). rewrite Htag at 1.
  change (tagStripper NewScraper) with tagRE.
  unfold FindAllString. rewrite scan_tagfree by exact Hfree. reflexivity.
Qed.

Lemma stripTags_leaves_no_tag_witness :
  FindAllString NewScraper.(tagStripper)
    (stripTags NewScraper (go "<p>1 < 2 and <i>3 > 2</i></p>")) = [].
Proof.
  exact (stripTags_leaves_no_tag NewScraper (go "<p>1 < 2 and <i>3 > 2</i></p>")
           configured_NewScraper).
Defined.

Lemma TrimSpace_ends (s : gostring) :
  leads space2 space3 (TrimSpace s) = false /\
  leads (fun b a => space2 a b) (fun c b a => space3 a b c) (rev (TrimSpace s)) = false.
Proof.
  unfold TrimSpace. set (y := TrimLeft s). split.
  - destruct (TrimRight_prefix y) as [b Hb].
    apply (leads_prefix _ _ _ b). rewrite <- Hb. apply trimLead_leads.
  - unfold TrimRight. rewrite rev_involutive. apply trimLead_leads.
Qed.

(** X3. A stripped text neither starts nor ends with a white-space byte
    (tab, line feed, vertical tab, form feed, carriage return, space). *)
Theorem stripTags_trimmed (s : Scraper) (input : gostring) (c : ascii) (t : gostring) :
  asciiSpace c = true ->
  stripTags s input <> c :: t /\ stripTags s input <> t ++ [c].
Proof.
  intros Hc. unfold stripTags.
  destruct (TrimSpace_ends (ReplaceAllString (tagStripper s) input [])) as [Hl Hr].
  split; intros E; rewrite E in *.
  - simpl in Hl. rewrite Hc in Hl. discriminate.
  - rewrite rev_app_distr in Hr. simpl in Hr. rewrite Hc in Hr. discriminate.
Qed.

Lemma stripTags_trimmed_witness :
  stripTags NewScraper (go " <b> Al </b> ") <> go " Al" /\
  stripTags NewScraper (go " <b> Al </b> ") <> go "Al ".
Proof.
  split.
  - exact (proj1 (stripTags_trimmed NewScraper (go " <b> Al </b> ") " "%char (go "Al")
                    eq_refl)).
  - exact (proj2 (stripTags_trimmed NewScraper (go " <b> Al </b> ") " "%char (go "Al")
                    eq_refl)).
Defined.

(** X4. A text in which no [<] reaches a [>] on its own line, one without
    any [<] among them, keeps all its bytes but the white space around it:
    a tag broken over two lines is not removed. *)
Theorem stripTags_keeps_unclosed (s : Scraper) (input : gostring) :
  configured s -> tagfree input ->
  stripTags s input = TrimSpace input.
Proof.
  intros (_ & _ & Htag) Hfree. unfold stripTags, ReplaceAllString.
  rewrite Htag. change (tagStripper NewScraper) with tagRE.
  rewrite replace_fixed by exact Hfree. reflexivity.
Qed.

Lemma stripTags_keeps_unclosed_witness :
  stripTags NewScraper Cases.brokenTag = go "Al <b" ++ Sample.nl ++ go "class=x> Be".
Proof.
  rewrite (stripTags_keeps_unclosed NewScraper Cases.brokenTag configured_NewScraper).
  - vm_compute. reflexivity.
  - apply tagfree_fixed. vm_compute. reflexivity.
Defined.

End StripMore.

(** ** The extractor, row by row *)

Section RowsMore.
Variable s : Scraper.
Variable team : Team.

(** When the loop returns, it returns what the rows added, in order. *)
Lemma extractLoop_returns (rows : list gostring) :
  forall acc players,
    extractLoop s team rows acc = Ok players ->
    players = acc ++ omap (accepted s team) rows.
Proof.
  induction rows as [|row rows IH]; intros acc players; simpl.
  - intros [= <-]. rewrite app_nil_r. reflexivity.
  - unfold accepted at 1.
    destruct (extractRow s team row) as [[p|]|]; simpl; [| |discriminate].
    + intros H. apply IH in H. rewrite <- app_assoc in H. exact H.
    + apply IH.
Qed.

Lemma extractPlayers_returns (html : gostring) (players : list Player) :
  extractPlayers s team html = Ok players ->
  players = omap (accepted s team) (regexp.FindAllString s.(rowPattern) html).
Proof. intros H. apply extractLoop_returns in H. exact H. Qed.

(** What an accepted row put in its record. *)
Lemma extractRow_record (row : gostring) (p : Player) :
  extractRow s team row = Ok (Some p) ->
  exists c0 c5,
    cell s row 0 = Ok c0 /\ cell s row 5 = Ok c5 /\
    p.(Profile) = stripTags s c0 /\ p.(Price) = stripTags s c5 /\
    p.(Team_) = team.(Name) /\
    strings.Contains p.(Profile) (go "Loan") = false.
Proof.
  unfold extractRow, cell.
  destruct (_ <? _)%nat; [discriminate|].
  destruct (index2 _ 0 1) as [c0|]; [|discriminate]. rewrite bind_Ok.
  destruct (strings.Contains _ _) eqn:Hloan; [discriminate|].
  destruct (index2 _ 2 1); [rewrite bind_Ok|discriminate].
  destruct (strconv.Atoi _) as [pot ep].
  destruct (_ || _); [discriminate|].
  destruct (index2 _ 3 1); [rewrite bind_Ok|discriminate].
  destruct (strconv.Atoi _) as [gr eg].
  destruct (_ || _); [discriminate|].
  destruct (index2 _ 1 1); [rewrite bind_Ok|discriminate].
  destruct (index2 _ 4 1); [rewrite bind_Ok|discriminate].
  destruct (index2 _ 5 1) as [c5|]; [rewrite bind_Ok|discriminate].
  intros [= <-]. exists c0, c5. simpl. repeat apply conj; try reflexivity. exact Hloan.
Qed.

Lemma extractPlayers_from_row (html : gostring) (players : list Player) (p : Player) :
  extractPlayers s team html = Ok players -> p ∈ players ->
  exists row, row ∈ regexp.FindAllString s.(rowPattern) html /\
    extractRow s team row = Ok (Some p).
Proof.
  intros H Hp. apply extractPlayers_returns in H. subst players.
  apply list_elem_of_omap in Hp as (row & Hrow & Hacc).
  exists row. split; [exact Hrow|].
  unfold accepted in Hacc. destruct (extractRow s team row); congruence.
Qed.

End RowsMore.

(** X5. A row whose potential cell or growth cell [Atoi] does not parse
    (letters, an empty cell, digits beyond 64 bits) yields no record. *)
Theorem unparsed_threshold_skipped (s : Scraper) (team : Team) (row c2 c3 : gostring) :
  configured s ->
  cell s row 2 = Ok c2 -> cell s row 3 = Ok c3 ->
  snd (strconv.Atoi (stripTags s c2)) <> None \/
  snd (strconv.Atoi (stripTags s c3)) <> None ->
  extractRow s team row = Ok None.
Proof.
  intros Hs H2 H3 Herr.
  destruct (Nat.lt_ge_cases (cellCount s row) 6) as [Hlt | Hge].
  { apply extractRow_short, Hlt. }
  destruct (cell_ok s row 0 Hs) as [c0 H0]; [lia|].
  destruct (cell_ok s row 1 Hs) as [c1 H1]; [lia|].
  destruct (cell_ok s row 4 Hs) as [c4 H4]; [lia|].
  destruct (cell_ok s row 5 Hs) as [c5 H5]; [lia|].
  rewrite (extractRow_cells s team _ _ _ _ _ _ _ H0 H1 H2 H3 H4 H5).
  destruct (strings.Contains _ _); [reflexivity|]. cbv zeta.
  destruct (snd (strconv.Atoi (stripTags s c2))) as [e|] eqn:E2.
  { rewrite (bool_decide_eq_true_2 (Some e ≠ None)) by discriminate. reflexivity. }
  rewrite (bool_decide_eq_false_2 (None ≠ None)) by (intros H; apply H; reflexivity).
  rewrite orb_false_l. destruct (_ <? _); [reflexivity|].
  destruct Herr as [Herr|Herr]; [congruence|].
  rewrite (bool_decide_eq_true_2 _ Herr). reflexivity.
Qed.

Lemma unparsed_threshold_skipped_witness :
  extractRow NewScraper Sample.team Cases.unratedRow = Ok None.
Proof.
  apply (unparsed_threshold_skipped NewScraper Sample.team Cases.unratedRow
           (go "n/a") (go "15") configured_NewScraper);
    [vm_compute; reflexivity ..|].
  left. vm_compute. discriminate.
Defined.

(** X6. Every record of [extractPlayers] carries the name of the team it
    was called with, and a profile without "Loan". *)
Theorem record_team_and_profile (s : Scraper) (team : Team) (html : gostring)
    (players : list Player) (p : Player) :
  extractPlayers s team html = Ok players -> p ∈ players ->
  p.(Team_) = team.(Name) /\ strings.Contains p.(Profile) (go "Loan") = false.
Proof.
  intros H Hp.
  destruct (extractPlayers_from_row s team html players p H Hp) as (row & _ & Hrow).
  destruct (extractRow_record s team row p Hrow) as (c0 & c5 & _ & _ & _ & _ & Ht & Hl).
  split; assumption.
Qed.

Lemma record_team_and_profile_witness :
  Sample.boundaryPlayer.(Team_) = go "Walsall" /\
  strings.Contains Sample.boundaryPlayer.(Profile) (go "Loan") = false.
Proof.
  apply (record_team_and_profile NewScraper Sample.team Sample.page
           [Sample.goodPlayer; Sample.boundaryPlayer] Sample.boundaryPlayer).
  - vm_compute. reflexivity.
  - set_solver.
Defined.

(** X7. The profile and the price of every record are stripped texts: the
    tag pattern has no match in them and [TrimSpace] leaves them as they
    are. *)
Theorem record_text_clean (s : Scraper) (team : Team) (html : gostring)
    (players : list Player) (p : Player) :
  configured s ->
  extractPlayers s team html = Ok players -> p ∈ players ->
  regexp.FindAllString s.(tagStripper) p.(Profile) = [] /\
  strings.TrimSpace p.(Profile) = p.(Profile) /\
  regexp.FindAllString s.(tagStripper) p.(Price) = [] /\
  strings.TrimSpace p.(Price) = p.(Price).
Proof.
  intros Hs H Hp.
  destruct (extractPlayers_from_row s team html players p H Hp) as (row & _ & Hrow).
  destruct (extractRow_record s team row p Hrow) as (c0 & c5 & _ & _ & -> & -> & _).
  assert (Hclean : forall x, regexp.FindAllString s.(tagStripper) (stripTags s x) = [] /\
                     strings.TrimSpace (stripTags s x) = stripTags s x).
  { intros x. split.
    - pose proof (stripTags_tagfree s x Hs) as Hfree.
      destruct Hs as (_ & _ & Htag). rewrite Htag at 1.
      change (tagStripper NewScraper) with tagRE.
      unfold regexp.FindAllString. rewrite scan_tagfree by exact Hfree. reflexivity.
    - unfold stripTags. apply TrimSpace_idem. }
  destruct (Hclean c0), (Hclean c5). auto.
Qed.

Lemma record_text_clean_witness :
  strings.TrimSpace Sample.boundaryPlayer.(Price) = Sample.boundaryPlayer.(Price).
Proof.
  refine (proj2 (proj2 (proj2 (record_text_clean NewScraper Sample.team Sample.page
           [Sample.goodPlayer; Sample.boundaryPlayer] Sample.boundaryPlayer
           configured_NewScraper _ _)))).
  - vm_compute. reflexivity.
  - set_solver.
Defined.

Lemma omap_length_le {A B : Type} (f : A -> option B) (l : list A) :
  (length (omap f l) <= length l)%nat.
Proof.
  induction l as [|x l IH]; [reflexivity|]. csimpl. destruct (f x); simpl; lia.
Qed.

(** X8. A page gives at most one record per row: [extractPlayers] never
    returns more players than the row pattern has matches in the page. *)
Theorem one_record_per_row (s : Scraper) (team : Team) (html : gostring)
    (players : list Player) :
  extractPlayers s team html = Ok players ->
  (length players <= length (regexp.FindAllString s.(rowPattern) html))%nat.
Proof.
  intros H. apply extractPlayers_returns in H. subst players. apply omap_length_le.
Qed.

Lemma one_record_per_row_witness :
  (length [Sample.goodPlayer; Sample.boundaryPlayer] <=
   length (regexp.FindAllString NewScraper.(rowPattern) Sample.page))%nat.
Proof.
  apply (one_record_per_row NewScraper Sample.team Sample.page).
  vm_compute. reflexivity.
Defined.

(** ** The matcher and the lines of a page *)

Section Lines.
Import regexp.

Lemma star_length (k : gostring -> option (nat * list nat)) :
  (forall t r, k t = Some r -> (fst r <= length t)%nat) ->
  forall s r, star k s = Some r -> (fst r <= length s)%nat.
Proof.
  intros Hk s. induction s as [|x s IH]; intros r; cbn [star].
  - destruct (k []) eqn:E; [|discriminate]. intros [= <-]. eauto.
  - destruct (k (x :: s)) eqn:E; [intros [= <-]; eauto|].
    destruct (Ascii.eqb x newline); [discriminate|].
    destruct (star k s) as [r'|]; [|discriminate].
    intros [= <-]. simpl. specialize (IH r' eq_refl). lia.
Qed.

(** A match lies within the text. *)
Lemma run_length (re : Regexp) :
  forall s r, run re s = Some r -> (fst r <= length s)%nat.
Proof.
  induction re as [|i re IH]; intros s r; cbn [run].
  - intros [= <-]. simpl. lia.
  - destruct i.
    + destruct s as [|x s]; [discriminate|].
      destruct (Ascii.eqb x c); [|discriminate].
      destruct (run re s) as [r'|] eqn:E; [|discriminate].
      intros [= <-]. simpl. specialize (IH s r' E). lia.
    + apply star_length, IH.
    + destruct (run re s) as [r'|] eqn:E; [|discriminate].
      intros [= <-]. simpl. eauto.
Qed.

Lemma star_newline (k : gostring -> option (nat * list nat)) (v : gostring) :
  (forall u, k (u ++ newline :: v) = k u) ->
  forall u, star k (u ++ newline :: v) = star k u.
Proof.
  intros Hk u. induction u as [|x u IH].
  - pose proof (Hk []) as H0. cbn [app] in *. cbn [star].
    rewrite H0. destruct (k []); [reflexivity|].
    rewrite Ascii.eqb_refl. reflexivity.
  - pose proof (Hk (x :: u)) as H1. cbn [app] in *. cbn [star].
    rewrite H1, IH. reflexivity.
Qed.

(** A match attempt does not look beyond the end of the line. *)
Lemma run_newline (re : Regexp) (v : gostring) :
  nonl re -> forall u, run re (u ++ newline :: v) = run re u.
Proof.
  induction re as [|i re IH]; intros Hnl u; [reflexivity|].
  apply Forall_cons in Hnl as [Hi Hnl]. specialize (IH Hnl).
  destruct i; cbn [run].
  - destruct u as [|x u]; cbn [app].
    + destruct (Ascii.eqb newline c) eqn:E; [|reflexivity].
      apply Ascii.eqb_eq in E. congruence.
    + rewrite IH. reflexivity.
  - apply star_newline, IH.
  - rewrite IH. reflexivity.
Qed.

Lemma FindAllString_texts_at (re : Regexp) (s0 : gostring) :
  forall s off skip, drop off s0 = s ->
    map (fun m => slice s0 (fst m) (fst (snd m))) (scan re off skip s) = texts re skip s.
Proof.
  induction s as [|x s IH]; intros off skip Hs; [reflexivity|].
  assert (Hs' : drop (S off) s0 = s).
  { replace (S off) with (off + 1)%nat by lia.
    rewrite <- drop_drop, Hs. reflexivity. }
  cbn [scan texts]. destruct skip as [|k]; [|apply IH, Hs'].
  destruct (run re (x :: s)) as [r|]; [|apply IH, Hs'].
  simpl. unfold slice at 1. rewrite Hs. f_equal. apply IH, Hs'.
Qed.

Lemma FindAllString_texts (re : Regexp) (s : gostring) :
  FindAllString re s = texts re 0 s.
Proof. apply FindAllString_texts_at. reflexivity. Qed.

(** The matches of a text of two parts divided by a newline are those of
    the first part and then those of the second. *)
Lemma texts_newline (re : Regexp) (b : gostring) :
  nonl re -> run re [] = None ->
  forall a skip, (skip <= length a)%nat ->
    texts re skip (a ++ newline :: b) = texts re skip a ++ texts re 0 b.
Proof.
  intros Hnl Hempty a. induction a as [|x a IH]; intros skip Hskip.
  - simpl in Hskip. replace skip with O by lia.
    change ([] ++ newline :: b) with (newline :: b). cbn [texts].
    change (newline :: b) with ([] ++ newline :: b) at 1.
    rewrite run_newline, Hempty by exact Hnl. reflexivity.
  - change ((x :: a) ++ newline :: b) with (x :: (a ++ newline :: b)).
    cbn [texts]. simpl in Hskip. destruct skip as [|k]; [|apply IH; lia].
    change (x :: (a ++ newline :: b)) with ((x :: a) ++ newline :: b).
    rewrite run_newline by exact Hnl.
    destruct (run re (x :: a)) as [r|] eqn:E; [|apply IH; lia].
    pose proof (run_length _ _ _ E) as Hlen. simpl in Hlen.
    rewrite take_app_le by (simpl; lia).
    rewrite IH by lia. reflexivity.
Qed.

End Lines.

(** X9. Pages compose line by line: the records of two texts joined by a
    newline are the records of the first followed by those of the second,
    for no row runs over a line end. *)
Theorem pages_compose (s : Scraper) (team : Team) (a b : gostring) :
  configured s ->
  exists pa pb,
    extractPlayers s team a = Ok pa /\
    extractPlayers s team b = Ok pb /\
    extractPlayers s team (a ++ regexp.newline :: b) = Ok (pa ++ pb).
Proof.
  intros Hs. rewrite !extractPlayers_accepted by exact Hs.
  do 2 eexists. split; [reflexivity|]. split; [reflexivity|].
  rewrite !FindAllString_texts.
  destruct Hs as (Hrow & _). rewrite Hrow.
  rewrite texts_newline; [apply f_equal, omap_app | | reflexivity | lia].
  unfold nonl. vm_compute. repeat constructor; discriminate.
Qed.

Lemma pages_compose_witness :
  extractPlayers NewScraper Sample.team
    (Sample.goodRow ++ regexp.newline :: Sample.boundaryRow) =
  Ok [Sample.goodPlayer; Sample.boundaryPlayer].
Proof.
  destruct (pages_compose NewScraper Sample.team Sample.goodRow Sample.boundaryRow
              configured_NewScraper) as (pa & pb & Ha & Hb & Hab).
  rewrite Hab.
  assert (Ea : extractPlayers NewScraper Sample.team Sample.goodRow = Ok [Sample.goodPlayer])
    by (vm_compute; reflexivity).
  assert (Eb : extractPlayers NewScraper Sample.team Sample.boundaryRow =
               Ok [Sample.boundaryPlayer]) by (vm_compute; reflexivity).
  rewrite Ea in Ha. rewrite Eb in Hb.
  injection Ha as <-. injection Hb as <-. reflexivity.
Defined.

(** ** What the row and cell patterns match *)

Section Shapes.
Import regexp strings.

Lemma shiftn_0 (r : nat * list nat) : shiftn 0 r = r.
Proof.
  destruct r as [n caps]. unfold shiftn. simpl. f_equal.
  induction caps as [|c caps IH]; simpl; congruence.
Qed.

Lemma shift_shiftn (n : nat) (r : nat * list nat) : shift (shiftn n r) = shiftn (S n) r.
Proof.
  destruct r as [m caps]. unfold shift, shiftn. simpl. f_equal.
  rewrite map_map. reflexivity.
Qed.

Lemma HasPrefix_nil (s : gostring) : HasPrefix s [] = true.
Proof. destruct s; reflexivity. Qed.

Lemma HasPrefix_split (s w : gostring) :
  HasPrefix s w = true <-> exists t, s = w ++ t.
Proof.
  revert s. induction w as [|c w IH]; intros s; simpl.
  - split; [intros _; exists s; reflexivity | intros _; destruct s; reflexivity].
  - destruct s as [|x s]; simpl.
    + split; [discriminate | intros [t H]; discriminate].
    + rewrite andb_true_iff, Ascii.eqb_eq, IH. split.
      * intros [-> [t ->]]. exists t. reflexivity.
      * intros [t [= -> ->]]. split; [reflexivity | exists t; reflexivity].
Qed.

(** The literals at the head of a pattern must stand at the head of the
    text; the match goes on after them. *)
Lemma run_lit (w : gostring) (re : Regexp) :
  forall s,
    run (lit w ++ re) s =
      if HasPrefix s w then option_map (shiftn (length w)) (run re (drop (length w) s))
      else None.
Proof.
  induction w as [|c w IH]; intros s.
  - cbn [lit map app length drop]. rewrite drop_0, HasPrefix_nil.
    destruct (run re s) as [r|]; simpl; [rewrite shiftn_0|]; reflexivity.
  - change (lit (c :: w) ++ re) with (Char c :: (lit w ++ re)). cbn [run].
    destruct s as [|x s]; [reflexivity|]. cbn [HasPrefix length drop].
    destruct (Ascii.eqb x c); [|reflexivity]. rewrite IH. simpl.
    destruct (HasPrefix s w); [|reflexivity].
    destruct (run re (drop (length w) s)) as [r|]; simpl; [|reflexivity].
    rewrite shift_shiftn. reflexivity.
Qed.

(** The lazy star takes the shortest stretch, free of newlines, after
    which the rest of the pattern matches. *)
Lemma star_spec (k : gostring -> option (nat * list nat)) :
  forall s r, star k s = Some r ->
    exists u t r',
      s = u ++ t /\ k t = Some r' /\ r = shiftn (length u) r' /\
      (newline ∉ u) /\
      forall u1 u2, u = u1 ++ u2 -> u2 <> [] -> k (u2 ++ t) = None.
Proof.
  induction s as [|x s IH]; intros r; cbn [star].
  - destruct (k []) as [r0|] eqn:E; [|discriminate]. intros [= <-].
    exists [], [], r0. rewrite shiftn_0. repeat apply conj; auto.
    + apply not_elem_of_nil.
    + intros u1 u2 H. symmetry in H. apply app_eq_nil in H as [_ ->]. congruence.
  - destruct (k (x :: s)) as [r0|] eqn:E.
    + intros [= <-]. exists [], (x :: s), r0. rewrite shiftn_0.
      repeat apply conj; auto.
      * apply not_elem_of_nil.
      * intros u1 u2 H. symmetry in H. apply app_eq_nil in H as [_ ->]. congruence.
    + destruct (Ascii.eqb x newline) eqn:Ex; [discriminate|].
      destruct (star k s) as [r1|] eqn:Es; [|discriminate].
      intros [= <-].
      destruct (IH r1 eq_refl) as (u & t & r' & -> & Hk & -> & Hnl & Hmin).
      exists (x :: u), t, r'. repeat apply conj; auto.
      * apply shift_shiftn.
      * apply not_elem_of_cons. split; [|exact Hnl].
        intros Heq. rewrite <- Heq, Ascii.eqb_refl in Ex. discriminate.
      * intros u1 u2 Hu Hne. destruct u1 as [|y u1]; simpl in Hu.
        -- subst u2. exact E.
        -- injection Hu as -> ->. apply (Hmin u1 u2); auto.
Qed.

(** It finds a match when the rest of the pattern matches anywhere down
    the line. *)
Lemma star_complete (k : gostring -> option (nat * list nat)) (t : gostring)
    (r : nat * list nat) :
  k t = Some r -> forall w, newline ∉ w -> star k (w ++ t) <> None.
Proof.
  intros Hk w. induction w as [|x w IH]; intros Hnl.
  - cbn [app]. destruct t; cbn [star]; rewrite Hk; discriminate.
  - cbn [app star]. destruct (k (x :: w ++ t)); [discriminate|].
    apply not_elem_of_cons in Hnl as [Hx Hw].
    destruct (Ascii.eqb x newline) eqn:Ex.
    + apply Ascii.eqb_eq in Ex. congruence.
    + specialize (IH Hw). destruct (star k (w ++ t)); [discriminate | congruence].
Qed.

Lemma Contains_split (g w : gostring) :
  Contains g w = true -> exists g1 g2, g = g1 ++ g2 /\ HasPrefix g2 w = true.
Proof.
  induction g as [|x g IH]; cbn [Contains]; intros H.
  - rewrite orb_false_r in H. exists [], []. auto.
  - apply orb_true_iff in H as [H|H].
    + exists [], (x :: g). auto.
    + destruct (IH H) as (g1 & g2 & -> & Hp). exists (x :: g1), g2. auto.
Qed.

Lemma HasPrefix_app (g w t : gostring) :
  HasPrefix g w = true -> HasPrefix (g ++ t) w = true.
Proof.
  rewrite !HasPrefix_split. intros [t' ->]. exists (t' ++ t).
  rewrite app_assoc. reflexivity.
Qed.

Lemma run_sv (sv : Regexp) (re : Regexp) (t : gostring) :
  sv = [] \/ sv = [Save] ->
  run (sv ++ re) t = option_map (fun r => (fst r, match sv with [] => snd r | _ => O :: snd r end)) (run re t).
Proof.
  intros [-> | ->]; cbn [app run].
  - destruct (run re t) as [[n c]|]; reflexivity.
  - destruct (run re t) as [[n c]|]; reflexivity.
Qed.

(** A match of a tag pair is the opening word, a stretch without [>] or
    newline, [>], the shortest stretch without newline before the closing
    word, and the closing word; with the group, its boundaries are those
    of the second stretch. *)
Lemma pair_match (op cl : gostring) (sv : Regexp) (s : gostring) (r : nat * list nat) :
  sv = [] \/ sv = [Save] ->
  cl <> [] ->
  run (pairRE op cl sv) s = Some r ->
  exists u g rest,
    s = op ++ u ++ [">"%char] ++ g ++ cl ++ rest /\
    fst r = length (op ++ u ++ [">"%char] ++ g ++ cl) /\
    snd r = match sv with
            | [] => []
            | _ => [length (op ++ u ++ [">"%char]); length (op ++ u ++ [">"%char] ++ g)]
            end /\
    (newline ∉ u) /\ (">"%char ∉ u) /\ (newline ∉ g) /\
    Contains g cl = false.
Proof.
  intros Hsv Hcl. unfold pairRE. rewrite run_lit.
  destruct (HasPrefix s op) eqn:Hop; [|discriminate].
  apply HasPrefix_split in Hop as [s1 ->].
  rewrite drop_app_length. cbn [run].
  set (k1 := run (lit [">"%char] ++ sv ++ AnyStarLazy :: (sv ++ lit cl))).
  destruct (star k1 s1) as [r1|] eqn:E1; [|discriminate]. intros [= <-].
  destruct (star_spec k1 s1 r1 E1) as (u & t1 & r1' & -> & Hk1 & -> & Hnlu & Hminu).
  assert (Hk1eq : forall y, k1 y =
            if HasPrefix y [">"%char]
            then option_map (shiftn 1)
                   (option_map (fun r => (fst r, match sv with [] => snd r | _ => O :: snd r end))
                      (star (run (sv ++ lit cl)) (drop 1 y)))
            else None).
  { intros y. unfold k1. rewrite run_lit. destruct (HasPrefix y [">"%char]); [|reflexivity].
    rewrite (run_sv sv) by exact Hsv. reflexivity. }
  set (k2 := run (sv ++ lit cl)) in *.
  assert (Hk2eq : forall y, k2 y =
            if HasPrefix y cl
            then Some (length cl, match sv with [] => [] | _ => [O] end)
            else None).
  { intros y. unfold k2. rewrite (run_sv sv) by exact Hsv.
    rewrite <- (app_nil_r (lit cl)), run_lit.
    destruct (HasPrefix y cl); [|reflexivity]. cbn [run option_map shiftn fst snd map].
    rewrite Nat.add_0_r. destruct Hsv as [-> | ->]; reflexivity. }
  rewrite Hk1eq in Hk1.
  destruct (HasPrefix t1 [">"%char]) eqn:Hgt; [|discriminate].
  apply HasPrefix_split in Hgt as [t2 ->]. cbn [app length drop] in Hk1.
  rewrite drop_0 in Hk1.
  destruct (star k2 t2) as [r2|] eqn:E2; [|discriminate].
  destruct (star_spec k2 t2 r2 E2) as (g & t3 & r2' & -> & Hk2 & -> & Hnlg & Hming).
  rewrite Hk2eq in Hk2.
  destruct (HasPrefix t3 cl) eqn:Hcl3; [|discriminate].
  apply HasPrefix_split in Hcl3 as [rest ->].
  injection Hk2 as <-. injection Hk1 as <-.
  exists u, g, rest. repeat apply conj.
  - reflexivity.
  - cbn [shiftn fst snd]. rewrite !length_app. simpl. lia.
  - destruct Hsv as [-> | ->]; [reflexivity|].
    cbn [shiftn fst snd map]. rewrite !length_app. simpl.
    apply (f_equal2 cons); [lia|]. apply (f_equal2 cons); [lia | reflexivity].
  - exact Hnlu.
  - intros Hin. apply list_elem_of_split in Hin as (u1 & u2 & ->).
    specialize (Hminu u1 (">"%char :: u2) eq_refl ltac:(discriminate)).
    rewrite Hk1eq in Hminu. cbn [app HasPrefix] in Hminu.
    rewrite Ascii.eqb_refl in Hminu. cbn [andb length drop] in Hminu.
    rewrite drop_0 in Hminu.
    rewrite HasPrefix_nil in Hminu.
    match type of Hminu with
    | context [star k2 ?x] =>
      assert (Hstar : star k2 x <> None);
        [|destruct (star k2 x); [simpl in Hminu; discriminate Hminu | congruence]]
    end.
    match goal with
    | |- star k2 ?x <> None =>
      assert (E : x = (u2 ++ [">"%char] ++ g) ++ cl ++ rest)
        by (cbn [app]; rewrite <- ?app_assoc; reflexivity);
      rewrite E
    end.
    eapply star_complete.
    + rewrite Hk2eq. rewrite (proj2 (HasPrefix_split _ _)) by eauto. reflexivity.
    + rewrite !not_elem_of_app. repeat split; [| |exact Hnlg].
      * intros H. apply Hnlu. rewrite elem_of_app. right. right. exact H.
      * intros H. apply list_elem_of_singleton in H. discriminate H.
  - exact Hnlg.
  - destruct (Contains g cl) eqn:Hc; [|reflexivity]. exfalso.
    apply Contains_split in Hc as (g1 & g2 & -> & Hp).
    assert (Hne : g2 <> []).
    { intros ->. destruct cl; [congruence | discriminate]. }
    specialize (Hming g1 g2 eq_refl Hne). rewrite Hk2eq in Hming.
    rewrite (HasPrefix_app _ _ _ Hp) in Hming. discriminate.
Qed.

End Shapes.

Section Found.
Import regexp.

(** Each entry of [scan] is a match of the pattern at its offset. *)
Lemma scan_at (re : Regexp) (s : gostring) :
  forall off skip m, m ∈ scan re off skip s ->
    (off <= fst m)%nat /\ run re (drop (fst m - off) s) = Some (snd m).
Proof.
  induction s as [|x s IH]; intros off skip m; cbn [scan].
  - intros H. inversion H.
  - assert (Hrest : forall k, m ∈ scan re (S off) k s ->
              (off <= fst m)%nat /\ run re (drop (fst m - off) (x :: s)) = Some (snd m)).
    { intros k H. apply IH in H as [Hle Hrun]. split; [lia|].
      replace (fst m - off)%nat with (S (fst m - S off)) by lia. exact Hrun. }
    destruct skip as [|k]; [|apply Hrest].
    destruct (run re (x :: s)) as [r|] eqn:E; [|apply Hrest].
    intros [-> | H]%elem_of_cons; [|eapply Hrest, H].
    simpl. rewrite Nat.sub_diag. auto.
Qed.

End Found.

(** X10. Every cell that [extractPlayers] reads has this form: [<td], a
    stretch without [>], the first [>], the cell text, [</td>], all on one
    line; the cell text, cols[k][1], is what stands between that [>] and
    the first [</td>] after it, tags inside it included. *)
Theorem cell_shape (s : Scraper) (row : gostring) (m : list gostring) :
  configured s ->
  m ∈ regexp.FindAllStringSubmatch s.(cellPattern) row ->
  exists u g,
    m = [go "<td" ++ u ++ go ">" ++ g ++ go "</td>"; g] /\
    (regexp.newline ∉ u) /\ (">"%char ∉ u) /\ (regexp.newline ∉ g) /\
    strings.Contains g (go "</td>") = false.
Proof.
  intros (_ & Hcell & _). rewrite Hcell.
  change (cellPattern NewScraper) with (pairRE (go "<td") (go "</td>") [regexp.Save]).
  unfold regexp.FindAllStringSubmatch.
  intros (mm & -> & Hmm)%list_elem_of_fmap.
  apply scan_at in Hmm as [_ Hrun]. rewrite Nat.sub_0_r in Hrun.
  destruct mm as [o [n caps]]. cbn [fst snd] in Hrun.
  apply pair_match in Hrun as (u & g & rest & Hrow & Hn & Hcaps & Hu1 & Hu2 & Hg1 & Hg2);
    [|right; reflexivity | discriminate].
  cbn [fst snd] in Hn, Hcaps. subst n caps.
  exists u, g. repeat apply conj; try assumption.
  unfold regexp.submatch. cbn [fst snd regexp.groups]. unfold slice.
  f_equal; [|f_equal].
  - rewrite Hrow.
    replace (go "<td" ++ u ++ [">"%char] ++ g ++ go "</td>" ++ rest)
      with ((go "<td" ++ u ++ [">"%char] ++ g ++ go "</td>") ++ rest)
      by (rewrite <- !app_assoc; reflexivity).
    rewrite take_app_length. reflexivity.
  - rewrite <- drop_drop, Hrow.
    replace (go "<td" ++ u ++ [">"%char] ++ g ++ go "</td>" ++ rest)
      with ((go "<td" ++ u ++ [">"%char]) ++ g ++ go "</td>" ++ rest)
      by (rewrite <- !app_assoc; reflexivity).
    rewrite drop_app_length.
    replace (length (go "<td" ++ u ++ [">"%char] ++ g) - length (go "<td" ++ u ++ [">"%char]))%nat
      with (length g) by (rewrite !length_app; lia).
    rewrite take_app_length. reflexivity.
Qed.

Lemma cell_shape_witness :
  exists u g,
    Shapes.firstCell = [go "<td" ++ u ++ go ">" ++ g ++ go "</td>"; g] /\
    (regexp.newline ∉ u) /\ (">"%char ∉ u) /\ (regexp.newline ∉ g) /\
    strings.Contains g (go "</td>") = false.
Proof.
  apply (cell_shape NewScraper Shapes.row Shapes.firstCell configured_NewScraper).
  apply (list_elem_of_lookup_2 _ 0%nat). vm_compute. reflexivity.
Defined.

(** The form of a row, for the proofs that need it. *)
Lemma row_shape_of (s : Scraper) (html row : gostring) :
  configured s ->
  row ∈ regexp.FindAllString s.(rowPattern) html ->
  exists u v, row = go "<tr" ++ u ++ go ">" ++ v ++ go "</tr>".
Proof.
  intros (Hrow & _). rewrite Hrow.
  change (rowPattern NewScraper) with (pairRE (go "<tr") (go "</tr>") []).
  unfold regexp.FindAllString.
  intros (mm & -> & Hmm)%list_elem_of_fmap.
  apply scan_at in Hmm as [_ Hrun]. rewrite Nat.sub_0_r in Hrun.
  destruct mm as [o [n caps]]. cbn [fst snd] in Hrun.
  apply pair_match in Hrun as (u & v & rest & Hs & Hn & _);
    [|left; reflexivity | discriminate].
  cbn [fst snd] in Hn. subst n.
  exists u, v. cbn [fst snd]. unfold slice. rewrite Hs.
  replace (go "<tr" ++ u ++ [">"%char] ++ v ++ go "</tr>" ++ rest)
    with ((go "<tr" ++ u ++ [">"%char] ++ v ++ go "</tr>") ++ rest)
    by (rewrite <- !app_assoc; reflexivity).
  rewrite take_app_length. reflexivity.
Qed.

(** X11. Every row that [extractPlayers] looks at has this form: [<tr], a
    stretch without [>], the first [>], a stretch up to the first [</tr>]
    after it, [</tr>], all on one line: a row that runs over a line end is
    not seen. *)
Theorem row_shape (s : Scraper) (html row : gostring) :
  configured s ->
  row ∈ regexp.FindAllString s.(rowPattern) html ->
  exists u v,
    row = go "<tr" ++ u ++ go ">" ++ v ++ go "</tr>" /\
    (regexp.newline ∉ u) /\ (">"%char ∉ u) /\ (regexp.newline ∉ v) /\
    strings.Contains v (go "</tr>") = false.
Proof.
  intros (Hrow & _). rewrite Hrow.
  change (rowPattern NewScraper) with (pairRE (go "<tr") (go "</tr>") []).
  unfold regexp.FindAllString.
  intros (mm & -> & Hmm)%list_elem_of_fmap.
  apply scan_at in Hmm as [_ Hrun]. rewrite Nat.sub_0_r in Hrun.
  destruct mm as [o [n caps]]. cbn [fst snd] in Hrun.
  apply pair_match in Hrun as (u & v & rest & Hs & Hn & _ & Hu1 & Hu2 & Hv1 & Hv2);
    [|left; reflexivity | discriminate].
  cbn [fst snd] in Hn. subst n.
  exists u, v. repeat apply conj; try assumption.
  cbn [fst snd]. unfold slice. rewrite Hs.
  replace (go "<tr" ++ u ++ [">"%char] ++ v ++ go "</tr>" ++ rest)
    with ((go "<tr" ++ u ++ [">"%char] ++ v ++ go "</tr>") ++ rest)
    by (rewrite <- !app_assoc; reflexivity).
  rewrite take_app_length. reflexivity.
Qed.

Lemma row_shape_witness :
  exists u v,
    Sample.goodRow = go "<tr" ++ u ++ go ">" ++ v ++ go "</tr>" /\
    (regexp.newline ∉ u) /\ (">"%char ∉ u) /\ (regexp.newline ∉ v) /\
    strings.Contains v (go "</tr>") = false.
Proof.
  apply (row_shape NewScraper Sample.page Sample.goodRow configured_NewScraper).
  apply (list_elem_of_lookup_2 _ 1%nat). vm_compute. reflexivity.
Defined.

(** ** The fetcher at the edge of its configuration *)

Lemma reject31_no_panic (max : Z) (r : rand.Rand) :
  match rand.reject31 max 3 r with
  | rand.Value i _ => 0 <= i < 3
  | rand.Panics => False
  | rand.Starves => True
  end.
Proof.
  induction r as [|v r IH]; simpl; [exact I|].
  destruct (max <? Z.shiftr v 32); [exact IH|].
  apply Z.mod_pos_bound. lia.
Qed.

Lemma reject_no_panic (max n : Z) (r : rand.Rand) : rand.reject max n r <> rand.Panics.
Proof.
  induction r as [|v r IH]; simpl; [discriminate|].
  destruct (max <? v); [exact IH | discriminate].
Qed.

(** X12. [fetchHTML] panics exactly when [maxDelay - minDelay], as an
    int64, is zero or negative, whatever the URL, the transport and the
    random source: [Int63n] refuses such a bound.  Equal delays are the
    plainest case. *)
Theorem fetchHTML_panics (s : Scraper) (net : http.Transport) (url : gostring)
    (r : rand.Rand) :
  (fetchHTML s net url r = rand.Panics <->
     wrapInt64 (s.(maxDelay) - s.(minDelay)) <= 0) /\
  (s.(minDelay) = s.(maxDelay) -> fetchHTML s net url r = rand.Panics).
Proof.
  assert (Hiff : fetchHTML s net url r = rand.Panics <->
            wrapInt64 (s.(maxDelay) - s.(minDelay)) <= 0).
  { unfold fetchHTML, pacingDelay, rand.Int63n.
    destruct (Z.leb_spec (wrapInt64 (maxDelay s - minDelay s)) 0) as [Hle|Hgt].
    { split; [intros _; exact Hle | reflexivity]. }
    split; [|lia]. intros H. exfalso. revert H.
    destruct (Z.land _ _ =? 0).
    - destruct r as [|v r]; [discriminate|].
      destruct (http.NewRequestErr net url); [discriminate|].
      change (rand.Intn (Z.of_nat (length userAgents)) r) with
        (rand.reject31 2147483645 3 r).
      pose proof (reject31_no_panic 2147483645 r) as H31.
      destruct (rand.reject31 2147483645 3 r) as [i r1| |]; [|contradiction|discriminate].
      destruct (lookup_lt_is_Some_2 userAgents (Z.to_nat i)) as [ua ->].
      { simpl. lia. }
      destruct (http.Do net _) as [resp|e]; [|discriminate].
      destruct (negb _); [discriminate|]. destruct (http.Body resp); discriminate.
    - pose proof (reject_no_panic (2 ^ 63 - 1 - 2 ^ 63 mod wrapInt64 (maxDelay s - minDelay s))
                    (wrapInt64 (maxDelay s - minDelay s)) r) as Hrej.
      destruct (rand.reject _ _ r) as [v r0| |]; [|contradiction|discriminate].
      destruct (http.NewRequestErr net url); [discriminate|].
      change (rand.Intn (Z.of_nat (length userAgents)) r0) with
        (rand.reject31 2147483645 3 r0).
      pose proof (reject31_no_panic 2147483645 r0) as H31.
      destruct (rand.reject31 2147483645 3 r0) as [i r1| |]; [|contradiction|discriminate].
      destruct (lookup_lt_is_Some_2 userAgents (Z.to_nat i)) as [ua ->].
      { simpl. lia. }
      destruct (http.Do net _) as [resp|e]; [|discriminate].
      destruct (negb _); [discriminate|]. destruct (http.Body resp); discriminate. }
  split; [exact Hiff|].
  intros E. apply Hiff. rewrite E, Z.sub_diag. vm_compute. discriminate.
Qed.

Lemma fetchHTML_panics_witness :
  fetchHTML Cases.noJitter Sample.served Sample.team.(URL) Sample.draws = rand.Panics.
Proof.
  exact (proj2 (fetchHTML_panics Cases.noJitter Sample.served Sample.team.(URL)
                  Sample.draws) eq_refl).
Defined.

(** ** The bookkeeping of [Run] *)

Section Sums.
Context {A : Type} (f : A -> nat).

Lemma sum_insert (l : list A) (i : nat) (x y : A) :
  l !! i = Some x ->
  (sum_list_with f (<[i:=y]> l) + f x = sum_list_with f l + f y)%nat.
Proof.
  intros Hi. pose proof (lookup_lt_Some _ _ _ Hi) as Hlt.
  pose proof (f_equal (sum_list_with f) (take_drop_middle l i x Hi)) as E.
  rewrite sum_list_with_app in E. simpl in E.
  rewrite insert_take_drop by exact Hlt.
  rewrite sum_list_with_app. simpl. lia.
Qed.

Lemma sum_zero (l : list A) (i : nat) (x : A) :
  sum_list_with f l = O -> l !! i = Some x -> f x = O.
Proof.
  intros H0 Hi. apply list_elem_of_lookup_2 in Hi.
  pose proof (sum_list_with_in x f l Hi). lia.
Qed.

Lemma sum_pos (l : list A) :
  (0 < sum_list_with f l)%nat -> exists i x, l !! i = Some x /\ (0 < f x)%nat.
Proof.
  induction l as [|x l IH]; simpl; [lia|]. intros H.
  destruct (f x) as [|n] eqn:E.
  - destruct IH as (i & y & Hi & Hy); [lia|]. exists (S i), y. auto.
  - exists O, x. split; [reflexivity | lia].
Qed.

End Sums.

Section Bookkeeping.
Import Run RunFacts.
Variable limit : nat.
Variable sends : list (list Player).

Lemma sound_init : sound limit sends init.
Proof.
  unfold sound, phase. simpl. repeat apply conj; try reflexivity; try lia.
  - intros c H. rewrite lookup_nil in H. discriminate.
  - discriminate.
Qed.

(** A collector that is in its loop changes state: the phase stays. *)
Lemma keep_phase_collector (at_ : mainpc) (ws : list worker) (cs : list collector)
    (isClosed : bool) (waiting c : nat) (now next : collector) :
  phaseOf at_ ws cs isClosed waiting ->
  cs !! c = Some now -> now <> Left ->
  phaseOf at_ ws (<[c:=next]> cs) isClosed waiting.
Proof.
  intros Hph H Hnow. unfold phaseOf in *. rewrite length_insert.
  destruct at_; try exact Hph.
  - destruct Hph as (_ & Hc & _). rewrite Hc in H. discriminate.
  - destruct Hph as (? & ? & ? & Hl). repeat apply conj; auto.
    destruct (decide (c = 1%nat)) as [->|Hne]; [congruence|].
    rewrite list_lookup_insert_ne by exact Hne. exact Hl.
  - destruct Hph as (? & ? & ? & Hl). repeat apply conj; auto.
    destruct (decide (c = 1%nat)) as [->|Hne]; [congruence|].
    rewrite list_lookup_insert_ne by exact Hne. exact Hl.
Qed.

(** A worker moves on: the phase stays. *)
Lemma keep_phase_worker (at_ : mainpc) (ws : list worker) (cs : list collector)
    (isClosed : bool) (waiting waiting' i : nat) (now next : worker) :
  phaseOf at_ ws cs isClosed waiting ->
  ws !! i = Some now -> (waiting' <= waiting)%nat ->
  phaseOf at_ (<[i:=next]> ws) cs isClosed waiting'.
Proof.
  intros Hph H Hle. unfold phaseOf in *. rewrite length_insert.
  destruct at_; try exact Hph; try (intuition lia).
  destruct Hph as (Hw & _). rewrite Hw in H. discriminate.
Qed.

Ltac worker_case H w' :=
  pose proof (sum_insert slotted _ _ _ w' H);
  pose proof (sum_insert live _ _ _ w' H);
  simpl in *.

Lemma sound_step (st st' : state) :
  sound limit sends st -> step limit sends st st' -> sound limit sends st'.
Proof.
  intros (Hsem & Hlim & Hwg & Hnw & Hcap & Hph & Hleft & Hdone) Hstep.
  unfold sound, phase in *.
  destruct Hstep; simpl in *.
  - rewrite H in Hph. destruct Hph as (Hw & Hc & Hcl). rewrite Hc, Hw in *. simpl.
    repeat apply conj; auto; try discriminate.
    intros [|c] Hc'; simpl in Hc'; [discriminate | rewrite lookup_nil in Hc'; discriminate].
  - rewrite H in Hph. destruct Hph as (Hw & Hc & Hcl).
    pose proof (lookup_lt_Some _ _ _ H0).
    rewrite !sum_list_with_app, length_app. simpl.
    repeat apply conj; auto; try lia; try discriminate.
  - rewrite H in Hph. destruct Hph as (Hw & Hc & Hcl).
    rewrite length_app. simpl.
    repeat apply conj; auto; try lia; try discriminate.
    intros c Hc'. apply lookup_app_Some in Hc' as [Hc'|[_ Hc']]; [eauto|].
    apply list_elem_of_lookup_2, list_elem_of_singleton in Hc'. discriminate.
  - rewrite H in Hph. destruct Hph as (Hc & Hcl).
    repeat apply conj; auto; discriminate.
  - rewrite H in Hph. destruct Hph as (Hc & Hcl & Hwg0).
    repeat apply conj; auto; try discriminate.
    intros c Hc'. destruct (Hleft c Hc') as [Hcontra _]. congruence.
  - rewrite H in Hph. destruct Hph as (Hc & Hcl & Hwg0).
    repeat apply conj; auto; discriminate.
  - rewrite H in Hph. destruct Hph as (Hc & Hcl & Hwg0 & Hl).
    repeat apply conj; auto. eauto.
  - worker_case H (Sending players).
    repeat apply conj; try lia.
    + rewrite length_insert. exact Hnw.
    + rewrite length_app. simpl. lia.
    + eapply keep_phase_worker; eauto.
    + intros c Hc'. destruct (Hleft c Hc') as [Hcontra _]. congruence.
    + exact Hdone.
  - worker_case H Release.
    repeat apply conj; try lia; auto.
    + rewrite length_insert. exact Hnw.
    + eapply keep_phase_worker; eauto.
  - worker_case H Finish.
    repeat apply conj; try lia; auto.
    + rewrite length_insert. exact Hnw.
    + eapply keep_phase_worker; eauto.
  - worker_case H Gone.
    repeat apply conj; try lia; auto.
    + rewrite length_insert. exact Hnw.
    + eapply keep_phase_worker; eauto; lia.
  - assert (Hnone : forall c', collectors st !! c' <> Some Left).
    { intros c' Hc'. destruct (Hleft c' Hc') as [_ Hr]. congruence. }
    rewrite H0 in Hcap. simpl in Hcap.
    repeat apply conj; auto; try lia.
    + eapply keep_phase_collector; eauto; discriminate.
    + intros c' Hc'. exfalso.
      destruct (decide (c = c')) as [<-|Hne].
      * rewrite list_lookup_insert_eq in Hc' by (eapply lookup_lt_Some, H). discriminate.
      * rewrite list_lookup_insert_ne in Hc' by exact Hne. eapply Hnone, Hc'.
  - repeat apply conj; auto.
    + eapply keep_phase_collector; eauto; discriminate.
    + intros c' Hc'.
      destruct (decide (c = c')) as [<-|Hne].
      * rewrite list_lookup_insert_eq in Hc' by (eapply lookup_lt_Some, H). discriminate.
      * rewrite list_lookup_insert_ne in Hc' by exact Hne. eapply Hleft, Hc'.
  - repeat apply conj; auto.
    eapply keep_phase_collector; eauto; discriminate.
Qed.

Lemma sound_rtc (st : state) : rtc (step limit sends) init st -> sound limit sends st.
Proof.
  revert st. apply (rtc_ind_r (R := step limit sends)); [apply sound_init|].
  intros y z _ Hstep IH. eapply sound_step; eauto.
Qed.

End Bookkeeping.

Section Reached.
Import Run RunFacts.

Ltac run_step c :=
  eapply rtc_l; [c; simpl; try reflexivity; try lia | simpl].

Lemma launched_reached : rtc (step 1 [[Sample.goodPlayer]]) init launched.
Proof.
  run_step ltac:(apply main_collector1).
  run_step ltac:(eapply (main_launch _ _ _ 0 [Sample.goodPlayer])).
  apply rtc_refl.
Qed.

Lemma closing_reached : rtc (step 1 [[Sample.goodPlayer]]) init closing.
Proof.
  run_step ltac:(apply main_collector1).
  run_step ltac:(eapply (main_launch _ _ _ 0 [Sample.goodPlayer])).
  run_step ltac:(eapply (main_collector2 _ _ _ 1)).
  run_step ltac:(eapply (worker_send _ _ _ 0 Sample.goodPlayer [])).
  run_step ltac:(eapply (collector_receive _ _ _ 0 Sample.goodPlayer [])).
  run_step ltac:(eapply (worker_sent _ _ _ 0)).
  run_step ltac:(eapply (worker_release _ _ _ 0)).
  run_step ltac:(eapply (worker_done _ _ _ 0)).
  run_step ltac:(apply main_wait).
  run_step ltac:(apply main_close).
  apply rtc_refl.
Qed.

Lemma ended_reached : rtc (step 1 [[Sample.goodPlayer]]) init ended.
Proof.
  etransitivity; [apply closing_reached|].
  run_step ltac:(eapply (collector_leave _ _ _ 1)).
  run_step ltac:(apply main_join).
  run_step ltac:(apply main_write).
  apply rtc_refl.
Qed.

(** A run in which the only fetch fails. *)
Lemma failed_fetch_run :
  Run.ends Sample.oneAtATime (fun _ => None) [Sample.team] [].
Proof.
  unfold ends. simpl.
  change (Z.to_nat (concurrency Sample.oneAtATime)) with 1%nat.
  eexists. split; [|split].
  - run_step ltac:(apply main_collector1).
    run_step ltac:(eapply (main_launch _ _ _ 0 [])).
    run_step ltac:(eapply (main_collector2 _ _ _ 1)).
    run_step ltac:(eapply (worker_sent _ _ _ 0)).
    run_step ltac:(eapply (worker_release _ _ _ 0)).
    run_step ltac:(eapply (worker_done _ _ _ 0)).
    run_step ltac:(apply main_wait).
    run_step ltac:(apply main_close).
    run_step ltac:(eapply (collector_leave _ _ _ 1)).
    run_step ltac:(apply main_join).
    run_step ltac:(apply main_write).
    apply rtc_refl.
  - reflexivity.
  - reflexivity.
Qed.

(** With no team, the run goes straight to its end. *)
Lemma empty_run (limit : nat) :
  exists st, rtc (step limit []) init st /\ pc st = Done /\ written st = Some [].
Proof.
  eexists. split; [|split].
  - run_step ltac:(apply main_collector1).
    run_step ltac:(eapply (main_collector2 _ _ _ 0)).
    run_step ltac:(apply main_wait).
    run_step ltac:(apply main_close).
    run_step ltac:(eapply (collector_leave _ _ _ 1)).
    run_step ltac:(apply main_join).
    run_step ltac:(apply main_write).
    apply rtc_refl.
  - reflexivity.
  - reflexivity.
Qed.

End Reached.

(** X13. The semaphore does its work: in every state a run of [Run] can
    reach, the workers between their launch and their [<-semaphore] are at
    most [concurrency], and the semaphore holds one slot for each. *)
Theorem workers_in_flight_bounded (limit : nat) (sends : list (list Player))
    (st : Run.state) :
  rtc (Run.step limit sends) Run.init st ->
  (sum_list_with RunFacts.slotted st.(Run.workers) <= limit)%nat /\
  st.(Run.semaphore) = sum_list_with RunFacts.slotted st.(Run.workers).
Proof.
  intros H. destruct (sound_rtc limit sends st H) as (Hsem & Hlim & _).
  split; [rewrite <- Hsem; exact Hlim | exact Hsem].
Qed.

Lemma workers_in_flight_bounded_witness :
  (sum_list_with RunFacts.slotted RunFacts.launched.(Run.workers) <= 1)%nat.
Proof.
  exact (proj1 (workers_in_flight_bounded 1 [[Sample.goodPlayer]] RunFacts.launched
                  launched_reached)).
Defined.

Lemma all_gone (ws : list Run.worker) :
  sum_list_with RunFacts.live ws = O ->
  forall i w, ws !! i = Some w -> w = Run.Gone.
Proof.
  intros H0 i w Hi. pose proof (sum_zero RunFacts.live ws i w H0 Hi) as Hw.
  destruct w; simpl in Hw; congruence.
Qed.

(** X14. The channel is closed only after every worker has run its
    [wg.Done]: in every reachable state with [results] closed all workers
    are gone, so no worker ever sends on the closed channel. *)
Theorem closed_after_workers (limit : nat) (sends : list (list Player))
    (st : Run.state) (i : nat) (w : Run.worker) :
  rtc (Run.step limit sends) Run.init st ->
  st.(Run.closed) = true ->
  st.(Run.workers) !! i = Some w ->
  w = Run.Gone.
Proof.
  intros H Hcl Hi.
  destruct (sound_rtc limit sends st H) as (_ & _ & Hwg & _ & _ & Hph & _).
  assert (Hwg0 : Run.wg st = O).
  { unfold RunFacts.phase, RunFacts.phaseOf in Hph.
    destruct (Run.pc st); intuition congruence. }
  rewrite Hwg in Hwg0. exact (all_gone _ Hwg0 i w Hi).
Qed.

Lemma closed_after_workers_witness :
  RunFacts.closing.(Run.closed) = true /\ Run.Gone = Run.Gone.
Proof.
  split; [reflexivity|].
  exact (closed_after_workers 1 [[Sample.goodPlayer]] RunFacts.closing 0 Run.Gone
           closing_reached eq_refl eq_refl).
Defined.

(** X15. When the main goroutine calls the writer, and ever after, the
    channel is closed and empty, the second collector has left its loop,
    and no slot of the semaphore is taken: every player that was sent has
    been taken off the channel. *)
Theorem drained_before_write (limit : nat) (sends : list (list Player))
    (st : Run.state) :
  rtc (Run.step limit sends) Run.init st ->
  st.(Run.pc) = Run.WriteFile \/ st.(Run.pc) = Run.Done ->
  st.(Run.closed) = true /\ st.(Run.results) = [] /\
  st.(Run.collectors) !! 1%nat = Some Run.Left /\
  st.(Run.wg) = O /\ st.(Run.semaphore) = O.
Proof.
  intros H Hpc.
  destruct (sound_rtc limit sends st H) as (Hsem & _ & Hwg & _ & _ & Hph & Hleft & _).
  unfold RunFacts.phase, RunFacts.phaseOf in Hph.
  assert (Hl : Run.closed st = true /\ Run.wg st = O /\
               Run.collectors st !! 1%nat = Some Run.Left).
  { destruct Hpc as [Hpc|Hpc]; rewrite Hpc in Hph; tauto. }
  destruct Hl as (Hcl & Hwg0 & Hl).
  destruct (Hleft 1%nat Hl) as [_ Hres].
  repeat apply conj; auto.
  rewrite Hsem. rewrite Hwg in Hwg0.
  assert (Hall : forall i w, Run.workers st !! i = Some w -> w = Run.Gone)
    by (apply all_gone, Hwg0).
  clear -Hall. induction (Run.workers st) as [|w ws IH]; [reflexivity|].
  simpl. rewrite (Hall 0%nat w eq_refl). simpl. apply IH.
  intros i w' Hi. apply (Hall (S i) w' Hi).
Qed.

Section Measure.
Import Run RunFacts.
Variable limit : nat.
Variable sends : list (list Player).

(** Every step uses up some of the weight. *)
Lemma step_weight (st st' : state) :
  step limit sends st st' -> (weight sends st' < weight sends st)%nat.
Proof.
  intros Hstep. unfold weight. destruct Hstep; simpl.
  - rewrite H. simpl. rewrite drop_0, sum_list_with_app. simpl. lia.
  - rewrite H. simpl. rewrite (drop_S _ _ _ H0), !sum_list_with_app. simpl.
    unfold teamWeight. lia.
  - rewrite H. simpl. rewrite sum_list_with_app. simpl. lia.
  - rewrite H. simpl. lia.
  - rewrite H. simpl. lia.
  - rewrite H. simpl. lia.
  - rewrite H. simpl. lia.
  - pose proof (sum_insert workerWeight _ _ _ (Sending players) H) as E.
    simpl in E. rewrite length_app. simpl. lia.
  - pose proof (sum_insert workerWeight _ _ _ Release H) as E. simpl in E. lia.
  - pose proof (sum_insert workerWeight _ _ _ Finish H) as E. simpl in E. lia.
  - pose proof (sum_insert workerWeight _ _ _ Gone H) as E. simpl in E. lia.
  - pose proof (sum_insert collectorWeight _ _ _ (Holding p) H) as E. simpl in E.
    rewrite H0. simpl. lia.
  - pose proof (sum_insert collectorWeight _ _ _ Receiving H) as E. simpl in E. lia.
  - pose proof (sum_insert collectorWeight _ _ _ Left H) as E. simpl in E. lia.
Qed.

Lemma nsteps_weight (n : nat) (st st' : state) :
  nsteps (step limit sends) n st st' -> (n + weight sends st' <= weight sends st)%nat.
Proof.
  induction 1 as [|n x y z Hxy _ IH]; [lia|].
  apply step_weight in Hxy. lia.
Qed.

Lemma teamWeight_sum :
  sum_list_with teamWeight sends = (4 * length (concat sends) + 4 * length sends)%nat.
Proof.
  induction sends as [|ps l IH]; [reflexivity|].
  simpl. rewrite length_app, IH. unfold teamWeight. lia.
Qed.

(** A worker that has not finished can take a step, or the first collector
    can: a full channel does not stop the run. *)
Lemma worker_moves (st : state) (i : nat) (w : worker) :
  sound limit sends st ->
  workers st !! i = Some w -> w <> Gone ->
  closed st = false -> (1 <= length (collectors st))%nat ->
  exists st', step limit sends st st'.
Proof.
  intros (_ & _ & _ & Hnw & Hcap & _ & Hleft & _) Hi Hw Hcl Hcs.
  destruct w as [[|p players]| | |]; [| | | |congruence].
  - eexists. eapply worker_sent, Hi.
  - destruct (Nat.lt_ge_cases (length (results st)) (length sends)) as [Hlt|Hge].
    { eexists. eapply worker_send; eauto. }
    pose proof (lookup_lt_Some _ _ _ Hi) as Hlen.
    destruct (results st) as [|q rest] eqn:Hres; [simpl in Hge; lia|].
    destruct (lookup_lt_is_Some_2 (collectors st) 0) as [c Hc]; [lia|].
    destruct c as [|q'|].
    + eexists. eapply collector_receive; eauto.
    + eexists. eapply collector_append; eauto.
    + destruct (Hleft _ Hc) as [_ Hcontra]. congruence.
  - eexists. eapply worker_release, Hi.
  - eexists. eapply worker_done, Hi.
Qed.

(** With room for one worker at least, a state that is not the end has a
    step. *)
Lemma sound_progress (st : state) :
  (1 <= limit)%nat -> sound limit sends st -> pc st <> Done ->
  exists st', step limit sends st st'.
Proof.
  intros Hlimit Hsound Hpc.
  pose proof Hsound as (Hsem & Hlim & Hwg & Hnw & Hcap & Hph & Hleft & _).
  unfold phase, phaseOf in Hph.
  destruct (pc st) as [|k| | | | |] eqn:Epc; [| | | | | |congruence].
  - eexists. apply main_collector1, Epc.
  - destruct Hph as (Hw & Hc & Hcl).
    destruct (sends !! k) as [players|] eqn:Ek.
    2:{ eexists. eapply main_collector2; eauto. }
    destruct (Nat.lt_ge_cases (semaphore st) limit) as [Hlt|Hge].
    { eexists. eapply main_launch; eauto. }
    destruct (sum_pos slotted (workers st)) as (i & w & Hi & Hsl); [lia|].
    apply (worker_moves st i w Hsound Hi); [|exact Hcl|lia].
    intros ->. simpl in Hsl. lia.
  - destruct Hph as (Hc & Hcl).
    destruct (wg st) as [|n] eqn:Ewg.
    { eexists. apply main_wait; auto. }
    destruct (sum_pos live (workers st)) as (i & w & Hi & Hlive); [lia|].
    apply (worker_moves st i w Hsound Hi); [|exact Hcl|lia].
    intros ->. simpl in Hlive. lia.
  - eexists. apply main_close, Epc.
  - destruct Hph as (Hc & Hcl & Hwg0).
    destruct (lookup_lt_is_Some_2 (collectors st) 1) as [c Hc1]; [lia|].
    destruct c as [|q|].
    + destruct (results st) as [|q rest] eqn:Hres.
      * eexists. eapply collector_leave; eauto.
      * eexists. eapply collector_receive; eauto.
    + eexists. eapply collector_append; eauto.
    + eexists. eapply main_join; eauto.
  - eexists. apply main_write, Epc.
Qed.


End Measure.

Lemma drained_before_write_witness :
  RunFacts.ended.(Run.results) = [] /\ RunFacts.ended.(Run.semaphore) = O.
Proof.
  destruct (drained_before_write 1 [[Sample.goodPlayer]] RunFacts.ended ended_reached
              (or_intror eq_refl)) as (_ & Hres & _ & _ & Hsem).
  split; [exact Hres | exact Hsem].
Defined.

(** X16. Every schedule of [Run] is finite: a run never takes more steps
    than nine, plus four for each team, plus four for each player sent. *)
Theorem Run_terminates (limit : nat) (sends : list (list Player)) (n : nat)
    (st : Run.state) :
  nsteps (Run.step limit sends) n Run.init st ->
  (n <= 9 + 4 * length sends + 4 * length (concat sends))%nat.
Proof.
  intros H. apply nsteps_weight in H.
  unfold RunFacts.weight in H at 2. simpl in H. rewrite teamWeight_sum in H. lia.
Qed.

Lemma Run_terminates_witness :
  (2 <= 9 + 4 * length [[Sample.goodPlayer]] + 4 * length (concat [[Sample.goodPlayer]]))%nat.
Proof.
  apply (Run_terminates 1 [[Sample.goodPlayer]] 2 RunFacts.launched).
  eapply nsteps_l; [apply Run.main_collector1; reflexivity|]. simpl.
  eapply nsteps_l; [eapply (Run.main_launch _ _ _ 0 [Sample.goodPlayer]);
                    simpl; try reflexivity; lia|]. simpl.
  apply nsteps_O.
Defined.

(** X17. [Run] does not deadlock: with a concurrency of one or more, every
    state a run can reach, short of the end, has a step to take, whatever
    the teams, the fetches and the size of the pages. *)
Theorem Run_never_stuck (limit : nat) (sends : list (list Player)) (st : Run.state) :
  (1 <= limit)%nat ->
  rtc (Run.step limit sends) Run.init st ->
  st.(Run.pc) <> Run.Done ->
  exists st', Run.step limit sends st st'.
Proof.
  intros Hlimit H Hpc. apply sound_progress; [exact Hlimit | apply sound_rtc, H | exact Hpc].
Qed.

Lemma Run_never_stuck_witness :
  exists st', Run.step 1 [[Sample.goodPlayer]] RunFacts.launched st'.
Proof.
  apply (Run_never_stuck 1 [[Sample.goodPlayer]] RunFacts.launched);
    [lia | apply launched_reached | discriminate].
Defined.



(** X19. With a concurrency of zero and one team or more, [Run] never ends:
    the main goroutine waits for a slot of the semaphore that no worker
    will ever free, and the writer is not called. *)
Theorem Run_without_slot (s : Scraper) (fetch : Team -> option gostring)
    (teams : list Team) (out : list Player) :
  s.(concurrency) = 0 -> teams <> [] ->
  ~ Run.ends s fetch teams out.
Proof.
  intros Hc Hteams (st & Hrun & Hpc & _). rewrite Hc in Hrun. simpl in Hrun.
  assert (Hinv : forall st', rtc (Run.step 0 (map (processTeam s fetch) teams)) Run.init st' ->
            Run.pc st' = Run.Start \/ Run.pc st' = Run.Launch 0).
  { apply (rtc_ind_r (R := Run.step 0 (map (processTeam s fetch) teams)));
      [left; reflexivity|].
    intros y z _ Hstep IH. destruct Hstep; simpl; auto.
    - lia.
    - destruct IH as [IH|IH]; rewrite IH in H; [discriminate|].
      injection H as <-. destruct teams; [congruence | discriminate].
    - destruct IH; congruence.
    - destruct IH; congruence.
    - destruct IH; congruence.
    - destruct IH; congruence. }
  destruct (Hinv st Hrun); congruence.
Qed.

Lemma Run_without_slot_witness :
  ~ Run.ends Cases.noSlot (fun _ => None) [Sample.team] [].
Proof.
  apply (Run_without_slot Cases.noSlot (fun _ => None) [Sample.team] []);
    [reflexivity | discriminate].
Defined.

Lemma processTeam_failed (s : Scraper) (fetch : Team -> option gostring)
    (teams : list Team) :
  (forall t, t ∈ teams -> fetch t = None) ->
  concat (map (processTeam s fetch) teams) = [].
Proof.
  induction teams as [|t teams IH]; intros H; [reflexivity|].
  simpl. unfold processTeam at 1. rewrite (H t) by left. simpl.
  apply IH. intros t' Ht'. apply H. right. exact Ht'.
Qed.

(** X20. When the fetch of every team fails, [Run] ends with an empty list
    for the writer, whatever the schedule: a failed fetch sends nothing. *)
Theorem Run_nothing_fetched (s : Scraper) (fetch : Team -> option gostring)
    (teams : list Team) (out : list Player) :
  (forall t, t ∈ teams -> fetch t = None) ->
  Run.ends s fetch teams out ->
  out = [].
Proof.
  intros Hfail (st & Hrun & _ & Hout).
  destruct (conserved_rtc _ _ _ Hrun) as [Hperm Hpre].
  rewrite (processTeam_failed s fetch teams Hfail) in Hperm.
  apply Permutation_nil_r in Hperm. unfold Run.inflight in Hperm.
  apply app_eq_nil in Hperm as [Hall _].
  destruct (Hpre out Hout) as [more Hmore]. rewrite Hall in Hmore.
  symmetry in Hmore. apply app_eq_nil in Hmore as [-> _]. reflexivity.
Qed.

Lemma Run_nothing_fetched_witness :
  Run.ends Sample.oneAtATime (fun _ => None) [Sample.team] [] /\ @nil Player = [].
Proof.
  split; [apply failed_fetch_run|].
  apply (Run_nothing_fetched Sample.oneAtATime (fun _ => None) [Sample.team] []).
  - reflexivity.
  - apply failed_fetch_run.
Defined.

(** X21. With no team at all, [Run] ends, for every concurrency from zero
    up, and the writer gets the empty list and nothing else. *)
Theorem Run_without_teams (s : Scraper) (fetch : Team -> option gostring)
    (out : list Player) :
  0 <= s.(concurrency) ->
  (Run.ends s fetch [] out <-> out = []).
Proof.
  intros _. split.
  - intros (st & Hrun & _ & Hout).
    destruct (conserved_rtc _ _ _ Hrun) as [Hperm Hpre].
    simpl in Hperm. apply Permutation_nil_r in Hperm. unfold Run.inflight in Hperm.
    apply app_eq_nil in Hperm as [Hall _].
    destruct (Hpre out Hout) as [more Hmore]. rewrite Hall in Hmore.
    symmetry in Hmore. apply app_eq_nil in Hmore as [-> _]. reflexivity.
  - intros ->. unfold Run.ends. simpl. apply empty_run.
Qed.

Lemma Run_without_teams_witness :
  Run.ends NewScraper (fun _ => None) [] [].
Proof.
  apply (Run_without_teams NewScraper (fun _ => None) []); [simpl; lia | reflexivity].
Defined.

(** ** Pages without rows, and the pacing of every fetch *)

Section Inside.
Import regexp strings.

Lemma Contains_intro (w post : gostring) :
  forall pre, Contains (pre ++ w ++ post) w = true.
Proof.
  induction pre as [|x pre IH].
  - assert (H : HasPrefix (w ++ post) w = true) by (apply HasPrefix_split; eauto).
    cbn [app]. destruct (w ++ post); cbn [Contains]; rewrite H; reflexivity.
  - cbn [app Contains]. rewrite IH. apply orb_true_r.
Qed.

(** A string of [FindAllString] stands in the text. *)
Lemma FindAllString_inside (re : Regexp) (s row : gostring) :
  row ∈ FindAllString re s -> exists pre post, s = pre ++ row ++ post.
Proof.
  unfold FindAllString. intros (m & -> & Hm)%list_elem_of_fmap.
  exists (take (fst m) s), (drop (fst (snd m)) (drop (fst m) s)).
  unfold slice. rewrite take_drop, take_drop. reflexivity.
Qed.

End Inside.

(** X22. A page in which [<tr] or [</tr>] does not occur gives no player:
    an error page, a text in another format or an empty body pass through
    [extractPlayers] without a record. *)
Theorem page_without_rows (s : Scraper) (team : Team) (html : gostring) :
  configured s ->
  strings.Contains html (go "<tr") = false \/ strings.Contains html (go "</tr>") = false ->
  extractPlayers s team html = Ok [].
Proof.
  intros Hs Hno. unfold extractPlayers.
  destruct (regexp.FindAllString (rowPattern s) html) as [|row rows] eqn:E; [reflexivity|].
  exfalso.
  assert (Hin : row ∈ regexp.FindAllString (rowPattern s) html) by (rewrite E; left).
  destruct (FindAllString_inside _ _ _ Hin) as (pre & post & Hhtml).
  destruct (row_shape_of s html row Hs Hin) as (u & v & Hrow).
  destruct Hno as [Hno|Hno]; rewrite Hhtml, Hrow in Hno.
  - rewrite <- !app_assoc in Hno. rewrite Contains_intro in Hno. discriminate.
  - replace (pre ++ (go "<tr" ++ u ++ go ">" ++ v ++ go "</tr>") ++ post)
      with ((pre ++ go "<tr" ++ u ++ go ">" ++ v) ++ go "</tr>" ++ post) in Hno
      by (rewrite <- !app_assoc; reflexivity).
    rewrite Contains_intro in Hno. discriminate.
Qed.

Lemma page_without_rows_witness :
  extractPlayers NewScraper Sample.team Pages.notFound = Ok [].
Proof.
  apply (page_without_rows NewScraper Sample.team Pages.notFound configured_NewScraper).
  left. vm_compute. reflexivity.
Defined.

Lemma fetchHTML_slept (s : Scraper) (net : http.Transport) (url : gostring)
    (r r' : rand.Rand) (res : fetched) :
  fetchHTML s net url r = rand.Value res r' ->
  exists r1, pacingDelay s r = rand.Value res.(slept) r1.
Proof.
  unfold fetchHTML.
  destruct (pacingDelay s r) as [delay r1| |]; try discriminate.
  intros H. exists r1. f_equal.
  destruct (http.NewRequestErr net url); [injection H as <- _; reflexivity|].
  destruct (rand.Intn _ r1) as [i r2| |]; try discriminate.
  destruct (userAgents !! Z.to_nat i); try discriminate.
  destruct (http.Do net _) as [resp|e]; [|injection H as <- _; reflexivity].
  destruct (negb _); [injection H as <- _; reflexivity|].
  destruct (http.Body resp); injection H as <- _; reflexivity.
Qed.

(** X23. Every call of [fetchHTML] that returns, with the page or with an
    error, has slept a delay of [minDelay, maxDelay) first: a request that
    could not be built or that failed was paced like the others. *)
Theorem fetch_always_paced (s : Scraper) (net : http.Transport) (url : gostring)
    (r r' : rand.Rand) (res : fetched) :
  isInt64 s.(minDelay) -> isInt64 s.(maxDelay) ->
  s.(minDelay) < s.(maxDelay) ->
  rand.valid r ->
  fetchHTML s net url r = rand.Value res r' ->
  s.(minDelay) <= res.(slept) < s.(maxDelay).
Proof.
  intros Hmin Hmax Hlt Hr H.
  destruct (fetchHTML_slept s net url r r' res H) as [r1 Hp].
  unfold pacingDelay in Hp.
  destruct (rand.Int63n _ r) as [v r2| |] eqn:E; try discriminate.
  injection Hp as Hd _. rewrite <- Hd.
  apply Int63n_range in E as [Hn Hv]; [|exact Hr].
  unfold isInt64 in *.
  assert (Hw : wrapInt64 (maxDelay s - minDelay s) = maxDelay s - minDelay s).
  { destruct (Z.lt_ge_cases (maxDelay s - minDelay s) (2 ^ 63)) as [Hs|Hb].
    - apply wrapInt64_small. unfold isInt64. lia.
    - exfalso. unfold wrapInt64 in Hn.
      rewrite <- (Z.mod_unique (maxDelay s - minDelay s + 2 ^ 63) (2 ^ 64) 1
                    (maxDelay s - minDelay s - 2 ^ 63)) in Hn; lia. }
  rewrite Hw in Hv, Hn. rewrite wrapInt64_small; unfold isInt64; lia.
Qed.

Lemma fetch_always_paced_witness :
  2000000000 <= 2123456789 < 5000000000.
Proof.
  assert (Hr : rand.valid Sample.draws) by (repeat constructor; vm_compute; congruence).
  refine (fetch_always_paced NewScraper Sample.proxied Sample.team.(URL) Sample.draws []
           {| slept := 2123456789; text := [];
              err := Some (Errorf_s (go "HTTP request failed with status: ")
                             (go "203 Non-Authoritative Information")) |} _ _ _ Hr _);
    vm_compute; try split; congruence.
Defined.
